(** * Pay-per-API on Rootstock: the ledger contract and the x402 gate

    A shallow embedding of
    - [contracts/src/PayPerAPI.sol]: the prepaid-balance ledger, and
    - [backend/middleware/x402Payment.js] and
      [backend/middleware/x402PaymentConfig.js]: the verifier, the
      instruction generator and the route gate,
    followed by the properties of the payment-gating protocol. *)

From stdpp Require Import gmap strings list pretty.
From Stdlib Require Import ZArith Ascii String Lia.

Local Open Scope string_scope.
Local Open Scope Z_scope.

(** ** PayPerAPI.sol *)

Module PayPerAPI.

(** [address] is a 160-bit account identifier; only equality is used. *)
Definition address := N.

(** [uint256] values are integers in [0, MAX_UINT256]; Solidity 0.8
    arithmetic is checked, so [+] and [-] panic instead of wrapping. *)
Definition MAX_UINT256 : Z := 2 ^ 256 - 1.

Definition is_uint256 (z : Z) : Prop := 0 <= z <= MAX_UINT256.

Inductive Event :=
| PaymentReceived (payer : address) (amount newBalance : Z)
| FundsWithdrawn (to : address) (amount : Z).

(** The contract's storage, its two immutables, and the native currency
    held at the contract's own address ([address(this).balance]). *)
Record Storage := mkStorage {
  pricePerRequest : Z;
  owner : address;
  paymentBalances : gmap address Z;
  selfBalance : Z
}.

(** Outcome of one call: it returns, or the whole transaction is rolled
    back by a failed [require] ([Revert]) or by checked arithmetic
    ([Panic], code 0x11 for overflow, 0x12 for division by zero). *)
Inductive Result (A : Type) :=
| Success (a : A)
| Revert (reason : string)
| Panic (code : Z).
Arguments Success {A} a.
Arguments Revert {A} reason.
Arguments Panic {A} code.

Definition succeeded {A} (r : Result A) : bool :=
  match r with Success _ => true | _ => false end.

Definition failed {A} (r : Result A) : bool := negb (succeeded r).

(** [paymentBalances[a]]: a mapping read, zero for an unknown key. *)
Definition balanceOf (st : Storage) (a : address) : Z :=
  default 0 (paymentBalances st !! a).

Definition constructor (sender : address) (_pricePerRequest : Z) : Result Storage :=
  if negb (0 <? _pricePerRequest) then Revert "Price must be greater than zero"
  else Success {| pricePerRequest := _pricePerRequest;
                  owner := sender;
                  paymentBalances := ∅;
                  selfBalance := 0 |}.

(** [pay() external payable]: [value] is [msg.value], already credited
    to the contract's address when the body runs. *)
Definition pay (st : Storage) (sender : address) (value : Z)
  : Result (Storage * list Event) :=
  if negb (0 <? value) then Revert "Payment amount must be greater than zero"
  else
    let sum := balanceOf st sender + value in
    if MAX_UINT256 <? sum then Panic 17
    else
      let st' := {| pricePerRequest := pricePerRequest st;
                    owner := owner st;
                    paymentBalances := <[sender := sum]> (paymentBalances st);
                    selfBalance := selfBalance st + value |} in
      Success (st', [PaymentReceived sender value (balanceOf st' sender)]).

Definition hasPaid (st : Storage) (payer : address) : bool :=
  pricePerRequest st <=? balanceOf st payer.

Definition getPaymentBalance (st : Storage) (payer : address) : Z :=
  balanceOf st payer.

Definition getAvailableRequests (st : Storage) (payer : address) : Result Z :=
  if pricePerRequest st =? 0 then Panic 18
  else Success (balanceOf st payer / pricePerRequest st).

Definition deductPayment (st : Storage) (sender payer : address) (amount : Z)
  : Result (Storage * list Event) :=
  if negb (N.eqb sender (owner st)) then Revert "Only owner can deduct payments"
  else if negb (amount <=? balanceOf st payer) then Revert "Insufficient balance"
  else
    Success ({| pricePerRequest := pricePerRequest st;
                owner := owner st;
                paymentBalances :=
                  <[payer := balanceOf st payer - amount]> (paymentBalances st);
                selfBalance := selfBalance st |}, []).

(** What the recipient of a low-level [call] does while it holds
    control.  Its code runs against the contract as the transfer left
    it and may call back into it any number of times; it leaves a
    storage, the events of those calls, and the [success] flag that
    the [call] returns. *)
Definition Recipient : Type := Storage -> Storage * list Event * bool.

(** A recipient that does not call back: an externally owned account,
    or a contract whose receiving code leaves the ledger alone. *)
Definition noCallback (success : bool) : Recipient :=
  fun st => (st, [], success).

(** The contract once the [call] has taken the whole held value with
    it; storage is as before. *)
Definition emptied (st : Storage) : Storage :=
  {| pricePerRequest := pricePerRequest st;
     owner := owner st;
     paymentBalances := paymentBalances st;
     selfBalance := 0 |}.

(** [withdraw()].  There is no re-entrancy guard: [recipient] is the
    owner's code, run by the low-level [call] that carries [balance],
    before the event is emitted. *)
Definition withdraw (st : Storage) (sender : address) (recipient : Recipient)
  : Result (Storage * list Event) :=
  if negb (N.eqb sender (owner st)) then Revert "Only owner can withdraw"
  else
    let balance := selfBalance st in
    if negb (0 <? balance) then Revert "No funds to withdraw"
    else
      let '(st', nested, success) := recipient (emptied st) in
      if negb success then Revert "Withdrawal failed"
      else Success (st', (nested ++ [FundsWithdrawn (owner st) balance])%list).

Definition getContractBalance (st : Storage) : Z := selfBalance st.

(** A failed call leaves the storage as it was. *)
Definition commit (st : Storage) (r : Result (Storage * list Event)) : Storage :=
  match r with
  | Success (st', _) => st'
  | _ => st
  end.

Definition emitted (r : Result (Storage * list Event)) : list Event :=
  match r with
  | Success (_, evs) => evs
  | _ => []
  end.

(** Storage as the EVM types it: a positive price and [uint256] cells. *)
Definition well_formed (st : Storage) : Prop :=
  0 < pricePerRequest st <= MAX_UINT256
  /\ (forall a, is_uint256 (balanceOf st a))
  /\ 0 <= selfBalance st.

End PayPerAPI.

(** ** JavaScript strings

    Strings are sequences of 8-bit characters; the three built-ins below
    act on the ASCII range, which is what HTTP methods, paths and header
    values are made of. *)

Module Js.

Definition upper_ascii (c : ascii) : ascii :=
  let n := N_of_ascii c in
  if ((97 <=? n) && (n <=? 122))%N then ascii_of_N (n - 32) else c.

(** [s.toUpperCase()] *)
Fixpoint toUpperCase (s : string) : string :=
  match s with
  | EmptyString => EmptyString
  | String c r => String (upper_ascii c) (toUpperCase r)
  end.

(** White space and line terminators: TAB, LF, VT, FF, CR, SP. *)
Definition is_ws (c : ascii) : bool :=
  let n := N_of_ascii c in
  (((9 <=? n) && (n <=? 13)) || (n =? 32))%N.

Fixpoint trimStart (s : string) : string :=
  match s with
  | EmptyString => EmptyString
  | String c r => if is_ws c then trimStart r else s
  end.

Fixpoint trimEnd (s : string) : string :=
  match s with
  | EmptyString => EmptyString
  | String c r =>
      match trimEnd r with
      | EmptyString => if is_ws c then EmptyString else String c EmptyString
      | r' => String c r'
      end
  end.

(** [s.trim()] *)
Definition trim (s : string) : string := trimEnd (trimStart s).

(** [s.split(' ')]: the pieces between single spaces, never an empty
    array. *)
Fixpoint split_space (s : string) : list string :=
  match s with
  | EmptyString => [EmptyString]
  | String c r =>
      if Ascii.eqb c " " then EmptyString :: split_space r
      else
        match split_space r with
        | w :: ws => String c w :: ws
        | [] => [String c EmptyString]
        end
  end.

(** No white-space character occurs in [s]. *)
Fixpoint no_ws (s : string) : bool :=
  match s with
  | EmptyString => true
  | String c r => negb (is_ws c) && no_ws r
  end.

(** Truthiness of a possibly-undefined string: only [undefined] and the
    empty string are falsy. *)
Definition truthy (s : option string) : bool :=
  match s with
  | Some (String _ _) => true
  | _ => false
  end.

(** [`${x}`] for a possibly-undefined string *)
Definition interpolate (s : option string) : string :=
  match s with
  | Some x => x
  | None => "undefined"
  end.

(** [Number(b)] for a bigint [b]: the nearest double, ties to even;
    exact below 2^53.  (No [uint256] is large enough to give Infinity.) *)
Definition Number (b : Z) : Z :=
  let a := Z.abs b in
  if a <? 2 ^ 53 then b
  else
    let e := Z.log2 a - 52 in
    let q := Z.shiftr a e in
    let r := a - Z.shiftl q e in
    let half := 2 ^ (e - 1) in
    let q' := if (half <? r) || ((r =? half) && Z.odd q) then q + 1 else q in
    Z.sgn b * Z.shiftl q' e.

End Js.

(** ** x402Payment.js and x402PaymentConfig.js *)

Module Gate.
Import Js.

(** A thrown value; [err_message] is its [message] property. *)
Record JsError := mkError { err_message : option string }.

(** The four view functions that [verifyPayment] reads. *)
Inductive ReadFn :=
| FnHasPaid
| FnGetPaymentBalance
| FnGetAvailableRequests
| FnPricePerRequest.

(** [publicClient.readContract]: each read is one round trip that either
    yields the decoded value or rejects (unreachable node, timeout,
    undecodable answer).  [settled] is the order in which the reads of
    one [Promise.all] settle. *)
Record PublicClient := mkClient {
  read_hasPaid : string -> JsError + bool;
  read_getPaymentBalance : string -> JsError + Z;
  read_getAvailableRequests : string -> JsError + Z;
  read_pricePerRequest : JsError + Z;
  settled : list ReadFn
}.

(** What the two modules import: viem's [isAddress] and [formatEther],
    and [CONTRACT_ADDRESS] and [publicClient] of [config/rootstock.js]. *)
Record Env := mkEnv {
  isAddress : string -> bool;
  formatEther : Z -> string;
  CONTRACT_ADDRESS : string;
  publicClient : PublicClient
}.

Record Verification := mkVerification {
  hasPaid : bool;
  balance : Z;
  availableRequests : Z;
  pricePerRequest : Z
}.

(** The JSON bodies. *)
Record Network := mkNetwork { chainId : Z; net_name : string; net_currency : string }.

Record AbiEntry := mkAbiEntry {
  abi_inputs : list string;
  abi_name : string;
  abi_outputs : list string;
  abi_stateMutability : string;
  abi_type : string
}.

Record ContractInfo := mkContractInfo {
  address : string;
  function : string;
  abi : list AbiEntry
}.

Record Amount := mkAmount { value : string; formatted : string; currency : string }.

Record Instructions := mkInstructions { description : string; steps : list string }.

Record Payment := mkPayment {
  network : Network;
  contract : ContractInfo;
  amount : Amount;
  instructions : Instructions
}.

Record Metadata := mkMetadata { standard : string; version : string; endpoint : string }.

Record PaymentInstructions := mkPaymentInstructions {
  payment : Payment;
  metadata : Metadata
}.

Record CurrentStatus := mkCurrentStatus {
  cs_walletAddress : string;
  cs_balance : string;
  cs_balanceFormatted : string;
  cs_hasPaid : bool;
  cs_availableRequests : Z
}.

Inductive Body :=
| ErrorBody (error message : string)
| PaymentRequiredBody (status : Z) (message : string)
    (payment : Payment) (metadata : Metadata) (currentStatus : CurrentStatus).

Record PaymentInfo := mkPaymentInfo {
  pi_walletAddress : string;
  pi_balance : string;
  pi_availableRequests : Z;
  pi_pricePerRequest : string
}.

(** One value of the route configuration object, and the entry stored in
    the [routes] map for it. *)
Record RouteOptions := mkRouteOptions {
  opt_accepts : option (list string);
  opt_description : option string
}.

Record RoutePolicy := mkRoutePolicy {
  rp_method : string;
  rp_path : option string;
  rp_accepts : list string;
  rp_description : string
}.

Record Request := mkRequest {
  method : string;
  path : string;
  headers : gmap string string;
  routeMetadata : option RoutePolicy;
  paymentInfo : option PaymentInfo
}.

(** What a middleware does besides updating [req]: it calls the
    verifier, the verifier issues ledger reads, and the request ends in
    a response or in [next()].  Console output is left out. *)
Inductive Effect :=
| VerifyCalled (walletAddress : string)
| LedgerRead (f : ReadFn) (args : list string)
| Respond (status : Z) (body : Body)
| Next.

Definition allReads (walletAddress : string) : list Effect :=
  [ LedgerRead FnHasPaid [walletAddress];
    LedgerRead FnGetPaymentBalance [walletAddress];
    LedgerRead FnGetAvailableRequests [walletAddress];
    LedgerRead FnPricePerRequest [] ].

Definition rejection (c : PublicClient) (walletAddress : string) (f : ReadFn)
  : option JsError :=
  match f with
  | FnHasPaid =>
      match read_hasPaid c walletAddress with inl e => Some e | inr _ => None end
  | FnGetPaymentBalance =>
      match read_getPaymentBalance c walletAddress with inl e => Some e | inr _ => None end
  | FnGetAvailableRequests =>
      match read_getAvailableRequests c walletAddress with inl e => Some e | inr _ => None end
  | FnPricePerRequest =>
      match read_pricePerRequest c with inl e => Some e | inr _ => None end
  end.

Fixpoint first_rejection (rej : ReadFn -> option JsError) (order : list ReadFn)
  : option JsError :=
  match order with
  | [] => None
  | f :: fs =>
      match rej f with
      | Some e => Some e
      | None => first_rejection rej fs
      end
  end.

(** [Promise.all] over the four reads: rejected with the first rejection
    to settle, fulfilled with the four values when none rejects. *)
Definition promiseAll (c : PublicClient) (walletAddress : string)
  : JsError + (bool * Z * Z * Z) :=
  match first_rejection (rejection c walletAddress) (settled c) with
  | Some e => inl e
  | None =>
      match read_hasPaid c walletAddress,
            read_getPaymentBalance c walletAddress,
            read_getAvailableRequests c walletAddress,
            read_pricePerRequest c with
      | inr h, inr b, inr a, inr p => inr (h, b, a, p)
      | inl e, _, _, _ => inl e
      | _, inl e, _, _ => inl e
      | _, _, inl e, _ => inl e
      | _, _, _, inl e => inl e
      end
  end.

Section WithEnv.
Context (env : Env).

(** [formatRBTC] of [config/rootstock.js] *)
Definition formatRBTC (wei : Z) : string := formatEther env wei.

Definition verifyPayment (walletAddress : string)
  : list Effect * (JsError + Verification) :=
  if negb (isAddress env walletAddress) then
    ([], inl {| err_message := Some "Invalid wallet address format" |})
  else
    (allReads walletAddress,
     match promiseAll (publicClient env) walletAddress with
     | inl error => inl error
     | inr (hasPaid, balance, availableRequests, pricePerRequest) =>
         inr {| hasPaid := hasPaid;
                balance := balance;
                availableRequests := Number availableRequests;
                pricePerRequest := pricePerRequest |}
     end).

Definition generatePaymentInstructions (pricePerRequest : Z) : PaymentInstructions :=
  {| payment :=
       {| network := {| chainId := 31;
                        net_name := "Rootstock Testnet";
                        net_currency := "RBTC" |};
          contract := {| address := CONTRACT_ADDRESS env;
                         function := "pay";
                         abi := [ {| abi_inputs := [];
                                     abi_name := "pay";
                                     abi_outputs := [];
                                     abi_stateMutability := "payable";
                                     abi_type := "function" |} ] |};
          amount := {| value := pretty pricePerRequest;
                       formatted := formatRBTC pricePerRequest;
                       currency := "RBTC" |};
          instructions :=
            {| description := "Send RBTC payment to the PayPerAPI contract";
               steps := [ "Call the pay() function on the contract";
                          "Send at least " +:+ formatRBTC pricePerRequest +:+ " RBTC";
                          "Wait for transaction confirmation";
                          "Retry your API request" ] |} |};
     metadata := {| standard := "x402";
                    version := "1.0";
                    endpoint := "PayPerAPI on Rootstock" |} |}.

Definition with_paymentInfo (req : Request) (info : PaymentInfo) : Request :=
  {| method := method req; path := path req; headers := headers req;
     routeMetadata := routeMetadata req; paymentInfo := Some info |}.

Definition with_routeMetadata (req : Request) (policy : RoutePolicy) : Request :=
  {| method := method req; path := path req; headers := headers req;
     routeMetadata := Some policy; paymentInfo := paymentInfo req |}.

Definition x402PaymentMiddleware (req : Request) : Request * list Effect :=
  let walletAddress := headers req !! "x-wallet-address" in
  if negb (truthy walletAddress) then
    (req, [Respond 400
             (ErrorBody "Missing wallet address"
                "Please include your wallet address in the x-wallet-address header")])
  else
    let walletAddress := interpolate walletAddress in
    let '(reads, outcome) := verifyPayment walletAddress in
    match outcome with
    | inr v =>
        if negb (hasPaid v) then
          let paymentInstructions := generatePaymentInstructions (pricePerRequest v) in
          (req, VerifyCalled walletAddress :: reads ++
                [Respond 402
                   (PaymentRequiredBody 402 "Payment Required"
                      (payment paymentInstructions)
                      (metadata paymentInstructions)
                      {| cs_walletAddress := walletAddress;
                         cs_balance := pretty (balance v);
                         cs_balanceFormatted := formatRBTC (balance v);
                         cs_hasPaid := false;
                         cs_availableRequests := 0 |})])
        else
          (with_paymentInfo req
             {| pi_walletAddress := walletAddress;
                pi_balance := pretty (balance v);
                pi_availableRequests := availableRequests v;
                pi_pricePerRequest := pretty (pricePerRequest v) |},
           VerifyCalled walletAddress :: reads ++ [Next])
    | inl error =>
        (req, VerifyCalled walletAddress :: reads ++
              [Respond 500
                 (ErrorBody "Payment verification failed"
                    (if truthy (err_message error)
                     then interpolate (err_message error)
                     else "Unable to verify payment status"))])
    end.

(** [const [method, path] = route.split(' ').map(s => s.trim())] *)
Definition parseRoute (route : string) : string * option string :=
  match map trim (split_space route) with
  | [] => (EmptyString, None)
  | [method] => (method, None)
  | method :: path :: _ => (method, Some path)
  end.

Definition routeKeyOf (route : string) : string :=
  let '(method, path) := parseRoute route in
  toUpperCase method +:+ " " +:+ interpolate path.

Definition policyOf (route : string) (config : RouteOptions) : RoutePolicy :=
  let '(method, path) := parseRoute route in
  {| rp_method := toUpperCase method;
     rp_path := path;
     rp_accepts := match opt_accepts config with
                   | Some a => a
                   | None => ["rootstock"]
                   end;
     rp_description := if truthy (opt_description config)
                       then interpolate (opt_description config)
                       else "Protected endpoint" |}.

(** The loop over [Object.entries(routeConfig)]: one [routes.set] per
    entry, in enumeration order. *)
Definition buildRoutes (routeConfig : list (string * RouteOptions))
  : gmap string RoutePolicy :=
  foldl (fun routes '(route, config) =>
           <[routeKeyOf route := policyOf route config]> routes)
        ∅ routeConfig.

Definition routeKey (req : Request) : string :=
  method req +:+ " " +:+ path req.

(** The middleware returned by [paymentMiddleware(routeConfig)]. *)
Definition paymentMiddleware (routeConfig : list (string * RouteOptions))
  (req : Request) : Request * list Effect :=
  let routes := buildRoutes routeConfig in
  match routes !! routeKey req with
  | Some routeConfig => x402PaymentMiddleware (with_routeMetadata req routeConfig)
  | None => (req, [Next])
  end.

End WithEnv.

(** The two gate states of a request under a route table. *)
Inductive GateState :=
| Restricted (policy : RoutePolicy)
| Unrestricted.

Definition gateState (routeConfig : list (string * RouteOptions)) (req : Request)
  : GateState :=
  match buildRoutes routeConfig !! routeKey req with
  | Some policy => Restricted policy
  | None => Unrestricted
  end.

Definition responses (effects : list Effect) : list (Z * Body) :=
  omap (fun e => match e with Respond s b => Some (s, b) | _ => None end) effects.

Definition is_read (e : Effect) : bool :=
  match e with LedgerRead _ _ => true | _ => false end.

Definition is_verify (e : Effect) : bool :=
  match e with VerifyCalled _ => true | _ => false end.

Definition statuses (effects : list Effect) : list Z := (responses effects).*1.

End Gate.

(** ** A node serving a given ledger

    A concrete environment for running the gate against the contract:
    header values that are "0x" followed by forty hex digits name an
    account, every read is answered from one storage snapshot, and
    amounts are printed with eighteen decimals. *)

Module Node.
Import Js Gate.

Definition hexval (c : ascii) : option N :=
  let n := N_of_ascii c in
  if ((48 <=? n) && (n <=? 57))%N then Some (n - 48)%N
  else if ((97 <=? n) && (n <=? 102))%N then Some (n - 87)%N
  else if ((65 <=? n) && (n <=? 70))%N then Some (n - 55)%N
  else None.

Fixpoint hexdigits (s : string) (acc : N) : option N :=
  match s with
  | EmptyString => Some acc
  | String c r =>
      match hexval c with
      | Some d => hexdigits r (acc * 16 + d)%N
      | None => None
      end
  end.

Definition parseAddress (s : string) : option PayPerAPI.address :=
  match s with
  | String "0" (String "x" digits) =>
      if Nat.eqb (String.length digits) 40 then hexdigits digits 0%N else None
  | _ => None
  end.

Definition addressShape (s : string) : bool :=
  match parseAddress s with Some _ => true | None => false end.

Fixpoint stripZerosEnd (s : string) : string :=
  match s with
  | EmptyString => EmptyString
  | String c r =>
      match stripZerosEnd r with
      | EmptyString => if Ascii.eqb c "0" then EmptyString else String c EmptyString
      | r' => String c r'
      end
  end.

Fixpoint zeros (n : nat) : string :=
  match n with
  | O => EmptyString
  | S k => String "0" (zeros k)
  end.

Definition padStart (n : nat) (s : string) : string :=
  zeros (n - String.length s) +:+ s.

Definition formatUnits18 (wei : Z) : string :=
  let a := Z.abs wei in
  let fraction := stripZerosEnd (padStart 18 (pretty (a mod 10 ^ 18))) in
  (if wei <? 0 then "-" else EmptyString) +:+ pretty (a / 10 ^ 18) +:+
  (match fraction with EmptyString => EmptyString | _ => "." +:+ fraction end).

Definition account (s : string) : PayPerAPI.address :=
  default 0%N (parseAddress s).

Definition undecodable : JsError := {| err_message := Some "Cannot decode result" |}.

Definition serve (st : PayPerAPI.Storage) : PublicClient :=
  {| read_hasPaid := fun w => inr (PayPerAPI.hasPaid st (account w));
     read_getPaymentBalance := fun w => inr (PayPerAPI.getPaymentBalance st (account w));
     read_getAvailableRequests := fun w =>
       match PayPerAPI.getAvailableRequests st (account w) with
       | PayPerAPI.Success n => inr n
       | _ => inl undecodable
       end;
     read_pricePerRequest := inr (PayPerAPI.pricePerRequest st);
     settled := [FnHasPaid; FnGetPaymentBalance; FnGetAvailableRequests; FnPricePerRequest] |}.

Definition envOf (client : PublicClient) : Env :=
  {| isAddress := addressShape;
     formatEther := formatUnits18;
     CONTRACT_ADDRESS := "0xa1f4d43749abedb6a835af9184cd0a9c194d4c8a";
     publicClient := client |}.

(** A client whose node cannot be reached: every read times out. *)
Definition timeout : JsError := {| err_message := Some "The request took too long to respond." |}.

Definition unreachable : PublicClient :=
  {| read_hasPaid := fun _ => inl timeout;
     read_getPaymentBalance := fun _ => inl timeout;
     read_getAvailableRequests := fun _ => inl timeout;
     read_pricePerRequest := inl timeout;
     settled := [FnPricePerRequest; FnHasPaid; FnGetPaymentBalance; FnGetAvailableRequests] |}.

(** A client whose four answers do not come from one snapshot: the
    balance and the request count were read after a payment that the
    [hasPaid] read did not see yet. *)
Definition stale : PublicClient :=
  {| read_hasPaid := fun _ => inr false;
     read_getPaymentBalance := fun _ => inr 7000;
     read_getAvailableRequests := fun _ => inr 7;
     read_pricePerRequest := inr 1000;
     settled := [FnGetPaymentBalance; FnHasPaid; FnPricePerRequest; FnGetAvailableRequests] |}.

Definition alice : string := "0x00000000000000000000000000000000000000a1".

Definition get (p : string) (hdrs : list (string * string)) : Request :=
  {| method := "GET"; path := p; headers := list_to_map hdrs;
     routeMetadata := None; paymentInfo := None |}.

Definition serverRoutes : list (string * RouteOptions) :=
  [ ("GET /api/data",
     {| opt_accepts := Some ["rootstock"]; opt_description := Some "Protected data API" |});
    ("GET /api/weather",
     {| opt_accepts := Some ["rootstock"]; opt_description := Some "Weather data API" |});
    ("POST /api/ai/infer",
     {| opt_accepts := Some ["rootstock"]; opt_description := Some "AI inference service" |}) ].

Definition deployer : PayPerAPI.address := 999%N.

(** The ledger of price 1000 after [alice] has paid [paid] in one call. *)
Definition ledgerAfterPaying (paid : Z) : PayPerAPI.Storage :=
  match PayPerAPI.constructor deployer 1000 with
  | PayPerAPI.Success st0 => PayPerAPI.commit st0 (PayPerAPI.pay st0 (account alice) paid)
  | _ => PayPerAPI.mkStorage 0 0%N ∅ 0
  end.

End Node.

(** ** Statements as the specification words them

    Three sentences of the specification are compared with the code
    below; each is written here once, as a predicate on concrete
    inputs. *)

Module Spec.
Import Js Gate.

(** "[pay] fails exactly when the amount is not strictly positive" *)
Definition pay_fails_only_on_nonpositive
  (st : PayPerAPI.Storage) (who : PayPerAPI.address) (amount : Z) : Prop :=
  PayPerAPI.failed (PayPerAPI.pay st who amount) = true <-> ~ 0 < amount.

(** "a malformed identity is answered 400 without a ledger read" *)
Definition malformed_identity_answered_400
  (env : Env) (routeConfig : list (string * RouteOptions)) (req : Request) : Prop :=
  let effects := (paymentMiddleware env routeConfig req).2 in
  statuses effects = [400] /\ filter (fun e => is_read e = true) effects = [].


(** "a successful withdraw leaves every entry of paymentBalances
    unchanged" *)
Definition withdraw_keeps_every_balance
  (st : PayPerAPI.Storage) (sender : PayPerAPI.address)
  (recipient : PayPerAPI.Recipient) : Prop :=
  let r := PayPerAPI.withdraw st sender recipient in
  PayPerAPI.succeeded r = true ->
  forall id,
    PayPerAPI.getPaymentBalance (PayPerAPI.commit st r) id
    = PayPerAPI.getPaymentBalance st id.

(** "duplicate keys overwrite the earlier entry (last-write-wins)": the
    policy of the last entry of the configuration whose key is [key]. *)
Fixpoint last_entry_for (key : string) (routeConfig : list (string * RouteOptions))
  : option RoutePolicy :=
  match routeConfig with
  | [] => None
  | (route, config) :: rest =>
      match last_entry_for key rest with
      | Some policy => Some policy
      | None => if decide (routeKeyOf route = key)
                then Some (policyOf route config) else None
      end
  end.

End Spec.

(** ** Sequences of calls to the ledger

    The chain runs the calls of a block one after the other; a call
    that reverts leaves no trace but is still part of the sequence.  A
    [withdraw] hands control to the owner's code in the middle of the
    call, and that code may call the contract again. *)

Module Chain.
Import PayPerAPI.

(** What the recipient of a withdrawal does while it holds control: a
    finite sequence of calls into the contract, made by itself or by
    accounts it sets in motion, each of which may fail without stopping
    it, and then the [success] flag it returns.  A nested [withdraw]
    hands control to its own recipient in turn. *)
Inductive Code :=
| Returns (success : bool)
| ThenPay (from : address) (value : Z) (rest : Code)
| ThenDeductPayment (from : address) (payer : address) (amount : Z) (rest : Code)
| ThenWithdraw (from : address) (onReceive : Code) (rest : Code).

Definition andThen (r : Result (Storage * list Event))
  (rest : Storage -> Storage * list Event * bool) (st : Storage)
  : Storage * list Event * bool :=
  let '(st', evs, success) := rest (commit st r) in
  (st', (emitted r ++ evs)%list, success).

Fixpoint runCode (st : Storage) (code : Code) : Storage * list Event * bool :=
  match code with
  | Returns success => (st, [], success)
  | ThenPay from value rest =>
      andThen (pay st from value) (fun st' => runCode st' rest) st
  | ThenDeductPayment from payer amount rest =>
      andThen (deductPayment st from payer amount) (fun st' => runCode st' rest) st
  | ThenWithdraw from onReceive rest =>
      andThen (withdraw st from (fun held => runCode held onReceive))
        (fun st' => runCode st' rest) st
  end.

Inductive Call :=
| CallPay (value : Z)
| CallDeductPayment (payer : address) (amount : Z)
| CallWithdraw (onReceive : Code).

Record Tx := mkTx { sender : address; call : Call }.

Definition exec (st : Storage) (tx : Tx) : Result (Storage * list Event) :=
  match call tx with
  | CallPay value => pay st (sender tx) value
  | CallDeductPayment payer amount => deductPayment st (sender tx) payer amount
  | CallWithdraw onReceive =>
      withdraw st (sender tx) (fun held => runCode held onReceive)
  end.

(** The storage after the calls and the events they logged, in order. *)
Fixpoint run (st : Storage) (txs : list Tx) : Storage * list Event :=
  match txs with
  | [] => (st, [])
  | tx :: rest =>
      let r := exec st tx in
      let '(st', evs) := run (commit st r) rest in
      (st', (emitted r ++ evs)%list)
  end.

(** The arguments of the calls, nested ones included, are [uint256]
    values. *)
Fixpoint typedCode (code : Code) : Prop :=
  match code with
  | Returns _ => True
  | ThenPay _ value rest => is_uint256 value /\ typedCode rest
  | ThenDeductPayment _ _ amount rest => is_uint256 amount /\ typedCode rest
  | ThenWithdraw _ onReceive rest => typedCode onReceive /\ typedCode rest
  end.

Definition typed (tx : Tx) : Prop :=
  match call tx with
  | CallPay value => is_uint256 value
  | CallDeductPayment _ amount => is_uint256 amount
  | CallWithdraw onReceive => typedCode onReceive
  end.

(** Some [deductPayment] call, nested ones included, comes from [o]. *)
Fixpoint codeDeductsAs (o : address) (code : Code) : bool :=
  match code with
  | Returns _ => false
  | ThenPay _ _ rest => codeDeductsAs o rest
  | ThenDeductPayment from _ _ rest => N.eqb from o || codeDeductsAs o rest
  | ThenWithdraw _ onReceive rest => codeDeductsAs o onReceive || codeDeductsAs o rest
  end.

Definition deductsAs (o : address) (tx : Tx) : bool :=
  match call tx with
  | CallPay _ => false
  | CallDeductPayment _ _ => N.eqb (sender tx) o
  | CallWithdraw onReceive => codeDeductsAs o onReceive
  end.

(** Totals read off the event log. *)
Fixpoint received (evs : list Event) : Z :=
  match evs with
  | [] => 0
  | PaymentReceived _ amount _ :: rest => amount + received rest
  | FundsWithdrawn _ _ :: rest => received rest
  end.

Fixpoint withdrawn (evs : list Event) : Z :=
  match evs with
  | [] => 0
  | PaymentReceived _ _ _ :: rest => withdrawn rest
  | FundsWithdrawn _ amount :: rest => amount + withdrawn rest
  end.

Fixpoint receivedFrom (who : address) (evs : list Event) : Z :=
  match evs with
  | [] => 0
  | PaymentReceived payer amount _ :: rest =>
      (if N.eqb payer who then amount else 0) + receivedFrom who rest
  | FundsWithdrawn _ _ :: rest => receivedFrom who rest
  end.

End Chain.

(** ** server.js: the payment status endpoint

    [GET /api/payment/status] is not in the route configuration; its
    handler runs the verifier itself and reports what it found. *)

Module Server.
Import Js Gate.

Record StatusBody := mkStatusBody {
  sb_walletAddress : string;
  sb_hasPaid : bool;
  sb_balance : string;
  sb_balanceFormatted : string;
  sb_availableRequests : Z;
  sb_pricePerRequest : string;
  sb_pricePerRequestFormatted : string
}.

(** [res.json(body)] answers 200; the error bodies carry [error] and
    [message], the latter absent when the thrown value has none. *)
Inductive StatusReply :=
| StatusJson (status : Z) (body : StatusBody)
| StatusError (status : Z) (error : string) (message : option string).

Definition paymentStatus (env : Env) (req : Request) : list Effect * StatusReply :=
  let walletAddress := headers req !! "x-wallet-address" in
  if negb (truthy walletAddress) then
    ([], StatusError 400 "Missing wallet address"
           (Some "Please include your wallet address in the x-wallet-address header"))
  else
    let walletAddress := interpolate walletAddress in
    let '(reads, outcome) := verifyPayment env walletAddress in
    match outcome with
    | inr v =>
        (VerifyCalled walletAddress :: reads,
         StatusJson 200
           {| sb_walletAddress := walletAddress;
              sb_hasPaid := hasPaid v;
              sb_balance := pretty (balance v);
              sb_balanceFormatted := formatRBTC env (balance v);
              sb_availableRequests := availableRequests v;
              sb_pricePerRequest := pretty (pricePerRequest v);
              sb_pricePerRequestFormatted := formatRBTC env (pricePerRequest v) |})
    | inl error =>
        (VerifyCalled walletAddress :: reads,
         StatusError 500 "Failed to check payment status" (err_message error))
    end.

(** The two ways a middleware ends a request. *)
Definition is_next (e : Effect) : bool :=
  match e with Next => true | _ => false end.

Definition is_respond (e : Effect) : bool :=
  match e with Respond _ _ => true | _ => false end.

Definition replyStatus (r : StatusReply) : Z :=
  match r with
  | StatusJson status _ => status
  | StatusError status _ _ => status
  end.

End Server.

(** * Properties of the ledger *)

Section LedgerFacts.
Import PayPerAPI.

Implicit Types (st : Storage) (a payer sender : address).

Lemma balanceOf_insert_eq (m : gmap address Z) a v p o h :
  balanceOf (mkStorage p o (<[a := v]> m) h) a = v.
Proof. unfold balanceOf; simpl. by rewrite lookup_insert_eq. Qed.

Lemma balanceOf_insert_ne st a b v p o h :
  a <> b ->
  balanceOf (mkStorage p o (<[a := v]> (paymentBalances st)) h) b = balanceOf st b.
Proof. intros Hne. unfold balanceOf; simpl. by rewrite lookup_insert_ne. Qed.

Lemma constructor_spec sender p :
  (0 < p -> constructor sender p = Success (mkStorage p sender ∅ 0))
  /\ (~ 0 < p -> constructor sender p = Revert "Price must be greater than zero").
Proof.
  unfold constructor. split; intros H.
  - assert (E : (0 <? p) = true) by (apply Z.ltb_lt; lia). by rewrite E.
  - assert (E : (0 <? p) = false) by (apply Z.ltb_ge; lia). by rewrite E.
Qed.

Lemma floor_div_bounds b p :
  0 <= b -> 0 < p -> (b / p) * p <= b < (b / p + 1) * p.
Proof.
  intros Hb Hp.
  pose proof (Z.div_mod b p ltac:(lia)) as E.
  pose proof (Z.mod_pos_bound b p Hp) as M.
  nia.
Qed.

Lemma floor_div_ge_1 b p : 0 <= b -> 0 < p -> (1 <= b / p <-> p <= b).
Proof.
  intros Hb Hp. pose proof (floor_div_bounds b p Hb Hp) as B. split; intros H.
  - nia.
  - destruct (Z.le_gt_cases 1 (b / p)) as [|L]; [done|].
    assert (b / p <= 0) by lia. nia.
Qed.

(** C1. For a balance [b >= 0] and a price [p > 0], [getAvailableRequests]
    returns the floor of [b / p], and [hasPaid] is true exactly when
    that number is at least 1, that is, when [b >= p]; a ledger cannot
    be created with a price that is not positive. *)
Theorem C1_available_requests_is_floor_division st payer (b p : Z) :
  balanceOf st payer = b -> pricePerRequest st = p ->
  0 <= b -> 0 < p ->
  getAvailableRequests st payer = Success (b / p)
  /\ (b / p) * p <= b < (b / p + 1) * p
  /\ (hasPaid st payer = true <-> 1 <= b / p)
  /\ (hasPaid st payer = true <-> p <= b)
  /\ (forall sender q, ~ 0 < q -> failed (constructor sender q) = true).
Proof.
  intros Eb Ep Hb Hp.
  assert (Hhp : hasPaid st payer = true <-> p <= b).
  { unfold hasPaid. rewrite Eb, Ep. apply Z.leb_le. }
  repeat split.
  - unfold getAvailableRequests. rewrite Eb, Ep.
    assert (E : (p =? 0) = false) by (apply Z.eqb_neq; lia). by rewrite E.
  - apply floor_div_bounds; lia.
  - apply floor_div_bounds; lia.
  - intros H. apply floor_div_ge_1; [done..|]. by apply Hhp.
  - intros H. apply Hhp. by apply floor_div_ge_1.
  - apply Hhp.
  - apply Hhp.
  - intros sender q Hq.
    destruct (constructor_spec sender q) as [_ R]. by rewrite (R Hq).
Qed.

Lemma C1_witness :
  let st := Node.ledgerAfterPaying 2500 in
  getAvailableRequests st (Node.account Node.alice) = Success 2
  /\ hasPaid st (Node.account Node.alice) = true.
Proof.
  pose proof (C1_available_requests_is_floor_division
                (Node.ledgerAfterPaying 2500) (Node.account Node.alice) 2500 1000
                ltac:(reflexivity) ltac:(reflexivity) ltac:(lia) ltac:(lia))
    as (Ha & _ & Hh & _).
  split; [exact Ha | apply Hh; vm_compute; discriminate].
Defined.

(** Decide the comparisons of a [require] from the arithmetic facts at
    hand. *)
Ltac decide_guard :=
  repeat match goal with
    | |- context [?a <? ?b] =>
        first [ replace (a <? b) with true by (symmetry; apply Z.ltb_lt; lia)
              | replace (a <? b) with false by (symmetry; apply Z.ltb_ge; lia) ]
    | |- context [?a <=? ?b] =>
        first [ replace (a <=? b) with true by (symmetry; apply Z.leb_le; lia)
              | replace (a <=? b) with false by (symmetry; apply Z.leb_gt; lia) ]
    end.

Lemma pay_success st who amount :
  0 < amount -> balanceOf st who + amount <= MAX_UINT256 ->
  pay st who amount =
    Success (mkStorage (pricePerRequest st) (owner st)
               (<[who := balanceOf st who + amount]> (paymentBalances st))
               (selfBalance st + amount),
             [PaymentReceived who amount (balanceOf st who + amount)]).
Proof.
  intros Hpos Hfit. unfold pay. decide_guard. simpl.
  by rewrite balanceOf_insert_eq.
Qed.

Lemma pay_nonpositive st who amount :
  ~ 0 < amount ->
  pay st who amount = Revert "Payment amount must be greater than zero".
Proof. intros H. unfold pay. by decide_guard. Qed.

Lemma pay_overflow st who amount :
  0 < amount -> MAX_UINT256 < balanceOf st who + amount ->
  pay st who amount = Panic 17.
Proof. intros Hpos Hover. unfold pay. by decide_guard. Qed.

(** The three ways a [pay] call can end. *)
Lemma pay_cases st who amount :
  (~ 0 < amount /\ pay st who amount = Revert "Payment amount must be greater than zero")
  \/ (0 < amount /\ MAX_UINT256 < balanceOf st who + amount
      /\ pay st who amount = Panic 17)
  \/ (0 < amount /\ balanceOf st who + amount <= MAX_UINT256
      /\ pay st who amount =
           Success (mkStorage (pricePerRequest st) (owner st)
                      (<[who := balanceOf st who + amount]> (paymentBalances st))
                      (selfBalance st + amount),
                    [PaymentReceived who amount (balanceOf st who + amount)])).
Proof.
  destruct (Z.lt_ge_cases 0 amount) as [Hpos|Hneg].
  - destruct (Z.lt_ge_cases MAX_UINT256 (balanceOf st who + amount)) as [Hover|Hfit].
    + right; left. eauto using pay_overflow.
    + right; right. eauto using pay_success.
  - left. split; [lia|]. apply pay_nonpositive. lia.
Qed.

(** C7, the claim as worded, fails: on a ledger where the payer already
    holds the largest [uint256], paying 1 is rejected by the checked
    addition although 1 is strictly positive. *)
Lemma C7_pay_overflow_counterexample :
  balanceOf (Node.ledgerAfterPaying MAX_UINT256) (Node.account Node.alice) = MAX_UINT256
  /\ pay (Node.ledgerAfterPaying MAX_UINT256) (Node.account Node.alice) 1 = Panic 17
  /\ ~ Spec.pay_fails_only_on_nonpositive
         (Node.ledgerAfterPaying MAX_UINT256) (Node.account Node.alice) 1.
Proof.
  split; [by vm_compute|]. split; [by vm_compute|].
  intros [H _]. apply H; [by vm_compute | lia].
Qed.

(** C7 (amended). [pay] fails exactly when the amount is not strictly
    positive or the incremented balance would exceed the largest
    [uint256]; a failed call changes nothing.  A successful call adds
    exactly the amount to the payer's balance, leaves every other
    balance alone, and emits one [PaymentReceived] whose [newBalance] is
    the updated balance; two successful calls add both amounts. *)
Theorem C7_pay_increments_or_fails st who amount :
  let r := pay st who amount in
  (failed r = true <-> ~ 0 < amount \/ MAX_UINT256 < balanceOf st who + amount)
  /\ (failed r = true -> commit st r = st /\ emitted r = [])
  /\ (failed r = false ->
      balanceOf (commit st r) who = balanceOf st who + amount
      /\ (forall other, other <> who -> balanceOf (commit st r) other = balanceOf st other)
      /\ emitted r = [PaymentReceived who amount (balanceOf (commit st r) who)]
      /\ forall amount2,
           failed (pay (commit st r) who amount2) = false ->
           balanceOf (commit (commit st r) (pay (commit st r) who amount2)) who
           = balanceOf st who + amount + amount2).
Proof.
  intros r. subst r.
  destruct (pay_cases st who amount) as [[Hn E]|[(Hp & Ho & E)|(Hp & Hf & E)]];
    rewrite E; simpl.
  - repeat split; try done; auto.
  - repeat split; try done; auto.
  - split; [split; [done | lia]|]. split; [done|]. intros _.
    rewrite balanceOf_insert_eq.
    split; [done|]. split; [intros other Hne; by apply balanceOf_insert_ne|].
    split; [done|]. intros amount2.
    set (st1 := mkStorage _ _ _ _).
    assert (B1 : balanceOf st1 who = balanceOf st who + amount)
      by apply balanceOf_insert_eq.
    destruct (pay_cases st1 who amount2) as [[Hn2 E2]|[(Hp2 & Ho2 & E2)|(Hp2 & Hf2 & E2)]];
      rewrite E2; simpl; try done.
    intros _. rewrite balanceOf_insert_eq. lia.
Qed.

Lemma C7_witness :
  balanceOf (commit (Node.ledgerAfterPaying 1000)
               (pay (Node.ledgerAfterPaying 1000) (Node.account Node.alice) 1500))
    (Node.account Node.alice) = 2500.
Proof.
  pose proof (C7_pay_increments_or_fails
                (Node.ledgerAfterPaying 1000) (Node.account Node.alice) 1500)
    as (_ & _ & H).
  destruct (H ltac:(reflexivity)) as (E & _). rewrite E. reflexivity.
Defined.

Lemma deductPayment_cases st caller payer amount :
  (caller <> owner st
   /\ deductPayment st caller payer amount = Revert "Only owner can deduct payments")
  \/ (caller = owner st /\ balanceOf st payer < amount
      /\ deductPayment st caller payer amount = Revert "Insufficient balance")
  \/ (caller = owner st /\ amount <= balanceOf st payer
      /\ deductPayment st caller payer amount =
           Success (mkStorage (pricePerRequest st) (owner st)
                      (<[payer := balanceOf st payer - amount]> (paymentBalances st))
                      (selfBalance st), [])).
Proof.
  unfold deductPayment.
  destruct (N.eqb_spec caller (owner st)) as [Ho|Hno]; simpl.
  - destruct (Z.leb_spec amount (balanceOf st payer)); simpl; auto.
  - auto.
Qed.

(** C8. [deductPayment] fails for every caller other than the owner and
    fails when the amount exceeds the payer's balance, in both cases
    leaving the balance as it was; otherwise it lowers the payer's
    balance by exactly the amount and touches no other balance.  No
    call makes a balance negative. *)
Theorem C8_deductPayment_owner_only_and_bounded st caller payer amount :
  let r := deductPayment st caller payer amount in
  (caller <> owner st ->
     r = Revert "Only owner can deduct payments" /\ commit st r = st)
  /\ (caller = owner st -> balanceOf st payer < amount ->
     r = Revert "Insufficient balance" /\ commit st r = st)
  /\ (caller = owner st -> amount <= balanceOf st payer ->
     succeeded r = true
     /\ balanceOf (commit st r) payer = balanceOf st payer - amount
     /\ forall other, other <> payer -> balanceOf (commit st r) other = balanceOf st other)
  /\ ((forall a, 0 <= balanceOf st a) -> forall a, 0 <= balanceOf (commit st r) a).
Proof.
  intros r. subst r.
  destruct (deductPayment_cases st caller payer amount)
    as [[Hno E]|[(Ho & Hlt & E)|(Ho & Hle & E)]]; rewrite E; simpl.
  - repeat split; try done; intros; try lia; try contradiction; auto.
  - repeat split; try done; intros; try lia; try contradiction; auto.
  - split; [intros; contradiction|]. split; [intros; lia|].
    split.
    + intros _ _. rewrite balanceOf_insert_eq. split; [done|].
      split; [done|]. intros other Hne. by apply balanceOf_insert_ne.
    + intros Hnn a. destruct (decide (payer = a)) as [->|Hne].
      * rewrite balanceOf_insert_eq. lia.
      * rewrite balanceOf_insert_ne by done. apply Hnn.
Qed.

Lemma C8_witness :
  deductPayment (Node.ledgerAfterPaying 2500) 5%N (Node.account Node.alice) 1000
  = Revert "Only owner can deduct payments"
  /\ balanceOf (commit (Node.ledgerAfterPaying 2500)
                  (deductPayment (Node.ledgerAfterPaying 2500) Node.deployer
                     (Node.account Node.alice) 1000))
       (Node.account Node.alice) = 1500.
Proof.
  split.
  - apply (C8_deductPayment_owner_only_and_bounded
             (Node.ledgerAfterPaying 2500) 5%N (Node.account Node.alice) 1000).
    by vm_compute.
  - pose proof (C8_deductPayment_owner_only_and_bounded
                  (Node.ledgerAfterPaying 2500) Node.deployer
                  (Node.account Node.alice) 1000) as (_ & _ & H & _).
    destruct (H ltac:(reflexivity) ltac:(by vm_compute)) as (_ & E & _).
    rewrite E. reflexivity.
Defined.

Lemma withdraw_cases st sender (recipient : Recipient) :
  (sender = owner st /\ 0 < selfBalance st /\ (recipient (emptied st)).2 = true
   /\ withdraw st sender recipient =
        Success ((recipient (emptied st)).1.1,
                 ((recipient (emptied st)).1.2
                  ++ [FundsWithdrawn (owner st) (selfBalance st)])%list))
  \/ (~ (sender = owner st /\ 0 < selfBalance st
         /\ (recipient (emptied st)).2 = true)
      /\ succeeded (withdraw st sender recipient) = false
      /\ commit st (withdraw st sender recipient) = st
      /\ emitted (withdraw st sender recipient) = []).
Proof.
  unfold withdraw.
  destruct (N.eqb_spec sender (owner st)) as [Ho|Hno]; simpl.
  - destruct (Z.ltb_spec 0 (selfBalance st)); simpl.
    + destruct (recipient (emptied st)) as [[st' nested] [|]]; simpl; [left; auto|].
      right; split; [|done]. by intros (_ & _ & ?).
    + right; split; [|done]. intros (_ & ? & _); lia.
  - right; split; [|done]. by intros (? & _).
Qed.

(** C10, the claim as worded, fails: the owner's code runs in the
    middle of [withdraw] and passes the owner-only guard, so an owner
    whose receiving code calls [deductPayment] ends a successful
    withdrawal with a payer's balance lowered from 2500 to 1500. *)
Lemma C10_reentrant_owner_counterexample :
  succeeded
    (withdraw (Node.ledgerAfterPaying 2500) Node.deployer
       (fun held =>
          Chain.runCode held
            (Chain.ThenDeductPayment Node.deployer (Node.account Node.alice) 1000
               (Chain.Returns true)))) = true
  /\ getPaymentBalance (Node.ledgerAfterPaying 2500) (Node.account Node.alice) = 2500
  /\ getPaymentBalance
       (commit (Node.ledgerAfterPaying 2500)
          (withdraw (Node.ledgerAfterPaying 2500) Node.deployer
             (fun held =>
                Chain.runCode held
                  (Chain.ThenDeductPayment Node.deployer (Node.account Node.alice) 1000
                     (Chain.Returns true)))))
       (Node.account Node.alice) = 1500
  /\ ~ Spec.withdraw_keeps_every_balance (Node.ledgerAfterPaying 2500) Node.deployer
         (fun held =>
            Chain.runCode held
              (Chain.ThenDeductPayment Node.deployer (Node.account Node.alice) 1000
                 (Chain.Returns true))).
Proof.
  split; [by vm_compute|]. split; [by vm_compute|]. split; [by vm_compute|].
  intros H. specialize (H ltac:(by vm_compute) (Node.account Node.alice)).
  vm_compute in H. discriminate H.
Qed.

(** C10 (amended). [withdraw] succeeds exactly for the owner, with a
    positive held value and a recipient that reports success.  Its own
    code writes no entry of [paymentBalances]: the storage after a
    successful call is the one left by the calls that the owner's
    receiving code made while it held control, and the events are
    theirs followed by one [FundsWithdrawn] for the value held at the
    call.  When that code makes no call back, the held value ends at
    zero and [paymentBalances] is as it was, so [getPaymentBalance],
    [hasPaid] and [getAvailableRequests] answer for every identity as
    they did before. *)
Theorem C10_withdraw_writes_no_payment_balance st sender (recipient : Recipient) success :
  let r := withdraw st sender recipient in
  let quiet := withdraw st sender (noCallback success) in
  (succeeded r = true <->
     sender = owner st /\ 0 < selfBalance st /\ (recipient (emptied st)).2 = true)
  /\ (succeeded r = true ->
      commit st r = (recipient (emptied st)).1.1
      /\ emitted r = ((recipient (emptied st)).1.2
                      ++ [FundsWithdrawn (owner st) (selfBalance st)])%list)
  /\ (succeeded r = false -> commit st r = st /\ emitted r = [])
  /\ (succeeded quiet = true <->
      sender = owner st /\ 0 < selfBalance st /\ success = true)
  /\ (succeeded quiet = true ->
      emitted quiet = [FundsWithdrawn (owner st) (selfBalance st)]
      /\ getContractBalance (commit st quiet) = 0)
  /\ paymentBalances (commit st quiet) = paymentBalances st
  /\ forall id,
       getPaymentBalance (commit st quiet) id = getPaymentBalance st id
       /\ hasPaid (commit st quiet) id = hasPaid st id
       /\ getAvailableRequests (commit st quiet) id = getAvailableRequests st id.
Proof.
  intros r quiet. subst r quiet.
  split; [|split; [|split]].
  - destruct (withdraw_cases st sender recipient)
      as [(Ho & Hh & Ha & E)|(Hn & E & _)]; rewrite E; simpl; split; auto; done.
  - destruct (withdraw_cases st sender recipient)
      as [(Ho & Hh & Ha & E)|(Hn & E & _)]; rewrite E; simpl; [done|]. done.
  - destruct (withdraw_cases st sender recipient)
      as [(Ho & Hh & Ha & E)|(Hn & E & Hc & He)]; [by rewrite E|done].
  - destruct (withdraw_cases st sender (noCallback success))
      as [(Ho & Hh & Ha & E)|(Hn & E & Hc & He)].
    + rewrite E; simpl. repeat split; auto.
    + rewrite E, Hc. repeat split; auto; try done; intros; contradiction.
Qed.

Lemma C10_witness :
  succeeded (withdraw (Node.ledgerAfterPaying 2500) Node.deployer (noCallback true)) = true
  /\ getAvailableRequests
       (commit (Node.ledgerAfterPaying 2500)
          (withdraw (Node.ledgerAfterPaying 2500) Node.deployer (noCallback true)))
       (Node.account Node.alice) = Success 2.
Proof.
  pose proof (C10_withdraw_writes_no_payment_balance
                (Node.ledgerAfterPaying 2500) Node.deployer (noCallback true) true)
    as (_ & _ & _ & S & _ & _ & V).
  split.
  - apply S. by vm_compute.
  - destruct (V (Node.account Node.alice)) as (_ & _ & ->). reflexivity.
Defined.

(** Every call keeps the storage well formed: balances stay [uint256]
    values, in particular never negative. *)
Lemma constructor_well_formed sender p st :
  p <= MAX_UINT256 -> constructor sender p = Success st -> well_formed st.
Proof.
  intros Hmax. destruct (Z.lt_ge_cases 0 p) as [Hp|Hp].
  - destruct (constructor_spec sender p) as [E _]. rewrite (E Hp).
    intros [= <-]. repeat split; simpl; try lia; by vm_compute.
  - destruct (constructor_spec sender p) as [_ E]. by rewrite E by lia.
Qed.

Lemma pay_well_formed st who amount :
  well_formed st -> well_formed (commit st (pay st who amount)).
Proof.
  intros (Hp & Hb & Hh).
  destruct (pay_cases st who amount) as [[Hn E]|[(Hpos & Ho & E)|(Hpos & Hf & E)]];
    rewrite E; simpl; try done.
  split; [done|]. split; simpl; [|lia].
  intros a. destruct (decide (who = a)) as [->|Hne].
  - rewrite balanceOf_insert_eq. specialize (Hb a). unfold is_uint256 in *. lia.
  - rewrite balanceOf_insert_ne by done. apply Hb.
Qed.

Lemma deductPayment_well_formed st caller payer amount :
  well_formed st -> 0 <= amount ->
  well_formed (commit st (deductPayment st caller payer amount)).
Proof.
  intros (Hp & Hb & Hh) Ha.
  destruct (deductPayment_cases st caller payer amount)
    as [[Hno E]|[(Ho & Hlt & E)|(Ho & Hle & E)]]; rewrite E; simpl; try done.
  split; [done|]. split; simpl; [|done].
  intros a. destruct (decide (payer = a)) as [->|Hne].
  - rewrite balanceOf_insert_eq. specialize (Hb a). unfold is_uint256 in *. lia.
  - rewrite balanceOf_insert_ne by done. apply Hb.
Qed.

Lemma withdraw_well_formed st sender (recipient : Recipient) :
  (forall held, well_formed held -> well_formed (recipient held).1.1) ->
  well_formed st -> well_formed (commit st (withdraw st sender recipient)).
Proof.
  intros Hrec Hwf.
  destruct (withdraw_cases st sender recipient) as [(_ & _ & _ & E)|(_ & _ & -> & _)];
    [|done].
  rewrite E; simpl. apply Hrec.
  destruct Hwf as (Hp & Hb & Hh). split; [exact Hp|]. split; [exact Hb|simpl; lia].
Qed.

End LedgerFacts.

(** * Properties of the route table *)

Section RouteFacts.
Import Js Gate.

Implicit Types (routeConfig : list (string * RouteOptions)) (key : string).

Lemma is_ws_space c : is_ws c = false -> Ascii.eqb c " " = false.
Proof.
  intros H. destruct (Ascii.eqb_spec c " ") as [->|]; [|done].
  by vm_compute in H.
Qed.

Lemma split_space_no_ws s : no_ws s = true -> split_space s = [s].
Proof.
  induction s as [|c r IH]; simpl; [done|].
  intros [Hc Hr]%andb_true_iff. apply negb_true_iff in Hc.
  by rewrite (is_ws_space _ Hc), (IH Hr).
Qed.

Lemma split_space_app m p :
  no_ws m = true -> split_space (m +:+ String " " p) = m :: split_space p.
Proof.
  induction m as [|c r IH]; simpl; [done|].
  intros [Hc Hr]%andb_true_iff. apply negb_true_iff in Hc.
  by rewrite (is_ws_space _ Hc), (IH Hr).
Qed.

Lemma trimEnd_no_ws s : no_ws s = true -> trimEnd s = s.
Proof.
  induction s as [|c r IH]; simpl; [done|].
  intros [Hc Hr]%andb_true_iff. apply negb_true_iff in Hc.
  rewrite (IH Hr), Hc. by destruct r.
Qed.

Lemma trim_no_ws s : no_ws s = true -> trim s = s.
Proof.
  intros H. unfold trim.
  assert (E : trimStart s = s).
  { destruct s as [|c r]; simpl in *; [done|].
    apply andb_true_iff in H as [Hc _]. apply negb_true_iff in Hc. by rewrite Hc. }
  rewrite E. by apply trimEnd_no_ws.
Qed.

Lemma parseRoute_method_path m p :
  no_ws m = true -> no_ws p = true ->
  parseRoute (m +:+ " " +:+ p) = (m, Some p).
Proof.
  intros Hm Hp. unfold parseRoute.
  change (" " +:+ p) with (String " " p).
  rewrite (split_space_app _ _ Hm), (split_space_no_ws _ Hp). simpl.
  by rewrite (trim_no_ws _ Hm), (trim_no_ws _ Hp).
Qed.


Lemma foldl_routes_lookup routeConfig (routes : gmap string RoutePolicy) key :
  foldl (fun routes '(route, config) =>
           <[routeKeyOf route := policyOf route config]> routes)
        routes routeConfig !! key
  = match Spec.last_entry_for key routeConfig with
    | Some policy => Some policy
    | None => routes !! key
    end.
Proof.
  revert routes. induction routeConfig as [|[route config] rest IH]; intros routes;
    simpl; [done|].
  rewrite IH. destruct (Spec.last_entry_for key rest); [done|].
  destruct (decide (routeKeyOf route = key)) as [->|Hne].
  - by rewrite lookup_insert_eq.
  - by rewrite lookup_insert_ne.
Qed.

(** The table built by the loop answers every key with the last entry
    configured for it. *)
Lemma buildRoutes_lookup routeConfig key :
  buildRoutes routeConfig !! key = Spec.last_entry_for key routeConfig.
Proof.
  unfold buildRoutes. rewrite foldl_routes_lookup.
  by destruct (Spec.last_entry_for key routeConfig).
Qed.

Lemma last_entry_for_app key l1 l2 :
  Spec.last_entry_for key (l1 ++ l2)
  = match Spec.last_entry_for key l2 with
    | Some policy => Some policy
    | None => Spec.last_entry_for key l1
    end.
Proof.
  induction l1 as [|[route config] rest IH]; simpl.
  - by destruct (Spec.last_entry_for key l2).
  - rewrite IH. by destruct (Spec.last_entry_for key l2).
Qed.

Lemma last_entry_for_None key routeConfig :
  Spec.last_entry_for key routeConfig = None
  <-> forall route config, (route, config) ∈ routeConfig -> routeKeyOf route <> key.
Proof.
  induction routeConfig as [|[route config] rest IH]; simpl.
  - split; [|done]. intros _ r c Hin. by apply not_elem_of_nil in Hin.
  - destruct (Spec.last_entry_for key rest) as [policy|] eqn:E.
    + split; [done|]. intros H.
      destruct IH as [_ IH]. discriminate IH.
      intros r c Hin. apply (H r c). by apply list_elem_of_further.
    + destruct (decide (routeKeyOf route = key)) as [Hk|Hk].
      * split; [done|]. intros H. exfalso. apply (H route config); [|done].
        apply list_elem_of_here.
      * split; [|done]. intros _ r c Hin.
        apply elem_of_cons in Hin as [[= -> ->]|Hin]; [done|].
        destruct IH as [IH _]. by apply (IH eq_refl r c).
Qed.

Lemma buildRoutes_twice routeConfig :
  buildRoutes (routeConfig ++ routeConfig) = buildRoutes routeConfig.
Proof.
  apply map_eq. intros key.
  rewrite !buildRoutes_lookup, last_entry_for_app.
  by destruct (Spec.last_entry_for key routeConfig).
Qed.

Lemma gateState_Restricted routeConfig req policy :
  gateState routeConfig req = Restricted policy
  <-> buildRoutes routeConfig !! routeKey req = Some policy.
Proof.
  unfold gateState. destruct (buildRoutes routeConfig !! routeKey req); split;
    intros H; congruence.
Qed.

Lemma gateState_Unrestricted routeConfig req :
  gateState routeConfig req = Unrestricted
  <-> buildRoutes routeConfig !! routeKey req = None.
Proof.
  unfold gateState. destruct (buildRoutes routeConfig !! routeKey req); split;
    intros H; congruence.
Qed.


End RouteFacts.

(** * Properties of the gate *)

Section GateFacts.
Import Js Gate.
Context (env : Env).

Implicit Types (routeConfig : list (string * RouteOptions)) (req : Request).

Lemma paymentMiddleware_restricted routeConfig req policy :
  gateState routeConfig req = Restricted policy ->
  paymentMiddleware env routeConfig req
  = x402PaymentMiddleware env (with_routeMetadata req policy).
Proof.
  intros H%gateState_Restricted. unfold paymentMiddleware. by rewrite H.
Qed.

Lemma paymentMiddleware_unrestricted routeConfig req :
  gateState routeConfig req = Unrestricted ->
  paymentMiddleware env routeConfig req = (req, [Next]).
Proof.
  intros H%gateState_Unrestricted. unfold paymentMiddleware. by rewrite H.
Qed.

Lemma falsy_header (h : option string) :
  truthy h = false <-> h = None \/ h = Some EmptyString.
Proof.
  destruct h as [[|c r]|]; simpl; split; intros H; auto; try done.
  destruct H as [H|H]; discriminate H.
Qed.

Lemma x402_missing req :
  truthy (headers req !! "x-wallet-address") = false ->
  x402PaymentMiddleware env req
  = (req, [Respond 400
             (ErrorBody "Missing wallet address"
                "Please include your wallet address in the x-wallet-address header")]).
Proof. intros H. unfold x402PaymentMiddleware. by rewrite H. Qed.

Lemma x402_rejected req w reads error :
  headers req !! "x-wallet-address" = Some w -> w <> EmptyString ->
  verifyPayment env w = (reads, inl error) ->
  x402PaymentMiddleware env req
  = (req, VerifyCalled w :: reads ++
          [Respond 500
             (ErrorBody "Payment verification failed"
                (if truthy (err_message error)
                 then interpolate (err_message error)
                 else "Unable to verify payment status"))]).
Proof.
  intros Hh Hw Hv. unfold x402PaymentMiddleware. rewrite Hh.
  destruct w as [|c r]; [done|]. simpl. by rewrite Hv.
Qed.

Lemma x402_unpaid req w reads v :
  headers req !! "x-wallet-address" = Some w -> w <> EmptyString ->
  verifyPayment env w = (reads, inr v) -> hasPaid v = false ->
  x402PaymentMiddleware env req
  = (req, VerifyCalled w :: reads ++
          [Respond 402
             (PaymentRequiredBody 402 "Payment Required"
                (payment (generatePaymentInstructions env (pricePerRequest v)))
                (metadata (generatePaymentInstructions env (pricePerRequest v)))
                {| cs_walletAddress := w;
                   cs_balance := pretty (balance v);
                   cs_balanceFormatted := formatRBTC env (balance v);
                   cs_hasPaid := false;
                   cs_availableRequests := 0 |})]).
Proof.
  intros Hh Hw Hv Hp. unfold x402PaymentMiddleware. rewrite Hh.
  destruct w as [|c r]; [done|]. simpl. by rewrite Hv, Hp.
Qed.

Lemma first_rejection_Some rej order e :
  first_rejection rej order = Some e -> exists f, rej f = Some e.
Proof.
  induction order as [|f fs IH]; simpl; [done|].
  destruct (rej f) as [e'|] eqn:E; [|done].
  intros [= <-]. eauto.
Qed.

(** [Promise.all] is rejected as soon as one read is, and then with the
    error of one of the rejected reads. *)
Lemma promiseAll_rejected c w f e :
  rejection c w f = Some e ->
  exists f' e', rejection c w f' = Some e' /\ promiseAll c w = inl e'.
Proof.
  intros Hrej. unfold promiseAll.
  destruct (first_rejection (rejection c w) (settled c)) as [e'|] eqn:F.
  - apply first_rejection_Some in F as [f' Hf']. eauto.
  - destruct (read_hasPaid c w) as [e1|h] eqn:R1.
    { exists FnHasPaid, e1. simpl. by rewrite R1. }
    destruct (read_getPaymentBalance c w) as [e2|b] eqn:R2.
    { exists FnGetPaymentBalance, e2. simpl. by rewrite R2. }
    destruct (read_getAvailableRequests c w) as [e3|a] eqn:R3.
    { exists FnGetAvailableRequests, e3. simpl. by rewrite R3. }
    destruct (read_pricePerRequest c) as [e4|p] eqn:R4.
    { exists FnPricePerRequest, e4. simpl. by rewrite R4. }
    exfalso. destruct f; simpl in Hrej;
      rewrite ?R1, ?R2, ?R3, ?R4 in Hrej; discriminate Hrej.
Qed.

Lemma first_rejection_None rej order :
  (forall f, rej f = None) -> first_rejection rej order = None.
Proof.
  intros H. induction order as [|f fs IH]; simpl; [done|]. by rewrite H.
Qed.

Lemma promiseAll_fulfilled c w h b a p :
  read_hasPaid c w = inr h -> read_getPaymentBalance c w = inr b ->
  read_getAvailableRequests c w = inr a -> read_pricePerRequest c = inr p ->
  promiseAll c w = inr (h, b, a, p).
Proof.
  intros R1 R2 R3 R4. unfold promiseAll.
  rewrite first_rejection_None.
  - by rewrite R1, R2, R3, R4.
  - intros []; simpl; by rewrite ?R1, ?R2, ?R3, ?R4.
Qed.

(** C2, the claim as worded, fails: a non-empty header value that is not
    an address is answered 500, not 400 (no ledger read is issued). *)
Lemma C2_malformed_identity_counterexample :
  gateState Node.serverRoutes
    (Node.get "/api/data" [("x-wallet-address", "not-an-address")]) <> Unrestricted
  /\ Node.addressShape "not-an-address" = false
  /\ statuses (paymentMiddleware (Node.envOf Node.unreachable) Node.serverRoutes
                 (Node.get "/api/data" [("x-wallet-address", "not-an-address")])).2
     = [500]
  /\ ~ Spec.malformed_identity_answered_400 (Node.envOf Node.unreachable)
         Node.serverRoutes
         (Node.get "/api/data" [("x-wallet-address", "not-an-address")]).
Proof.
  split; [by vm_compute|]. split; [by vm_compute|]. split; [by vm_compute|].
  intros [H _]. vm_compute in H. discriminate H.
Qed.

(** C2 (amended). On a restricted route, a non-empty identity header
    value that does not have the address shape makes verification fail
    with "Invalid wallet address format" by local validation: no ledger
    read is issued, and the response status is 500. *)
Theorem C2_malformed_identity_is_rejected_locally routeConfig req policy w :
  gateState routeConfig req = Restricted policy ->
  headers req !! "x-wallet-address" = Some w -> w <> EmptyString ->
  isAddress env w = false ->
  let out := paymentMiddleware env routeConfig req in
  verifyPayment env w = ([], inl {| err_message := Some "Invalid wallet address format" |})
  /\ out = (with_routeMetadata req policy,
            [VerifyCalled w;
             Respond 500 (ErrorBody "Payment verification failed"
                            "Invalid wallet address format")])
  /\ filter (fun e => is_read e = true) out.2 = []
  /\ statuses out.2 = [500].
Proof.
  intros Hg Hh Hw Ha out.
  assert (Hv : verifyPayment env w
               = ([], inl {| err_message := Some "Invalid wallet address format" |})).
  { unfold verifyPayment. by rewrite Ha. }
  assert (Hout : out = (with_routeMetadata req policy,
                        [VerifyCalled w;
                         Respond 500 (ErrorBody "Payment verification failed"
                                        "Invalid wallet address format")])).
  { subst out. rewrite (paymentMiddleware_restricted _ _ _ Hg).
    by rewrite (x402_rejected (with_routeMetadata req policy) w [] _ Hh Hw Hv). }
  split; [done|]. split; [done|]. by rewrite Hout.
Qed.


(** C3. On a restricted route, once a ledger read fails the response is
    500, its message is the message of a failed read (the underlying
    cause, or a fixed text when the cause has none), and neither a 402
    nor a pass-through happens. *)
Theorem C3_ledger_failure_is_500_never_402 routeConfig req policy w f e :
  gateState routeConfig req = Restricted policy ->
  headers req !! "x-wallet-address" = Some w -> w <> EmptyString ->
  isAddress env w = true ->
  rejection (publicClient env) w f = Some e ->
  let out := paymentMiddleware env routeConfig req in
  (exists f' cause,
     rejection (publicClient env) w f' = Some cause
     /\ out = (with_routeMetadata req policy,
               VerifyCalled w :: allReads w ++
               [Respond 500
                  (ErrorBody "Payment verification failed"
                     (if truthy (err_message cause)
                      then interpolate (err_message cause)
                      else "Unable to verify payment status"))]))
  /\ statuses out.2 = [500]
  /\ (402 ∉ statuses out.2)
  /\ (Next ∉ out.2).
Proof.
  intros Hg Hh Hw Ha Hrej out.
  destruct (promiseAll_rejected _ _ _ _ Hrej) as (f' & cause & Hc & Hp).
  assert (Hv : verifyPayment env w = (allReads w, inl cause)).
  { unfold verifyPayment. by rewrite Ha, Hp. }
  assert (Hout : out = (with_routeMetadata req policy,
               VerifyCalled w :: allReads w ++
               [Respond 500
                  (ErrorBody "Payment verification failed"
                     (if truthy (err_message cause)
                      then interpolate (err_message cause)
                      else "Unable to verify payment status"))])).
  { subst out. rewrite (paymentMiddleware_restricted _ _ _ Hg).
    by rewrite (x402_rejected (with_routeMetadata req policy) w _ _ Hh Hw Hv). }
  split; [by exists f', cause|].
  rewrite Hout. simpl. split; [done|]. split.
  - intros H. apply list_elem_of_singleton in H. discriminate H.
  - intros H. repeat (apply elem_of_cons in H as [H|H]; [discriminate H|]).
    by apply elem_of_nil in H.
Qed.

(** C4. On a restricted route, a request whose identity header is absent
    or empty is answered 400 at once: the verifier is not called and no
    ledger read is issued. *)
Theorem C4_missing_identity_is_400_without_ledger routeConfig req policy :
  gateState routeConfig req = Restricted policy ->
  headers req !! "x-wallet-address" = None \/ headers req !! "x-wallet-address" = Some EmptyString ->
  let out := paymentMiddleware env routeConfig req in
  out = (with_routeMetadata req policy,
         [Respond 400
            (ErrorBody "Missing wallet address"
               "Please include your wallet address in the x-wallet-address header")])
  /\ statuses out.2 = [400]
  /\ filter (fun e => is_verify e = true) out.2 = []
  /\ filter (fun e => is_read e = true) out.2 = [].
Proof.
  intros Hg Hh%falsy_header out.
  assert (Hout : out = (with_routeMetadata req policy,
         [Respond 400
            (ErrorBody "Missing wallet address"
               "Please include your wallet address in the x-wallet-address header")])).
  { subst out. rewrite (paymentMiddleware_restricted _ _ _ Hg).
    by rewrite (x402_missing (with_routeMetadata req policy) Hh). }
  split; [done|]. by rewrite Hout.
Qed.



(** C6. On a restricted route, when verification answers [hasPaid =
    false] the response is a 402 whose [currentStatus] carries the
    caller's identity, the balance in decimal and formatted,
    [hasPaid: false] and the literal [availableRequests: 0] (whatever
    the ledger answered for the number of requests), next to the
    rendered payment instructions, whose [amount.value] is
    [pricePerRequest] in decimal. *)
Theorem C6_unpaid_response_reports_zero_requests routeConfig req policy w b a p :
  gateState routeConfig req = Restricted policy ->
  headers req !! "x-wallet-address" = Some w -> w <> EmptyString ->
  isAddress env w = true ->
  read_hasPaid (publicClient env) w = inr false ->
  read_getPaymentBalance (publicClient env) w = inr b ->
  read_getAvailableRequests (publicClient env) w = inr a ->
  read_pricePerRequest (publicClient env) = inr p ->
  let out := paymentMiddleware env routeConfig req in
  out = (with_routeMetadata req policy,
         VerifyCalled w :: allReads w ++
         [Respond 402
            (PaymentRequiredBody 402 "Payment Required"
               (payment (generatePaymentInstructions env p))
               (metadata (generatePaymentInstructions env p))
               {| cs_walletAddress := w;
                  cs_balance := pretty b;
                  cs_balanceFormatted := formatRBTC env b;
                  cs_hasPaid := false;
                  cs_availableRequests := 0 |})])
  /\ statuses out.2 = [402]
  /\ value (amount (payment (generatePaymentInstructions env p))) = pretty p.
Proof.
  intros Hg Hh Hw Ha R1 R2 R3 R4 out.
  assert (Hv : verifyPayment env w
               = (allReads w, inr {| hasPaid := false; balance := b;
                                     availableRequests := Number a;
                                     pricePerRequest := p |})).
  { unfold verifyPayment.
    by rewrite Ha, (promiseAll_fulfilled _ _ _ _ _ _ R1 R2 R3 R4). }
  assert (Hout : out = (with_routeMetadata req policy,
         VerifyCalled w :: allReads w ++
         [Respond 402
            (PaymentRequiredBody 402 "Payment Required"
               (payment (generatePaymentInstructions env p))
               (metadata (generatePaymentInstructions env p))
               {| cs_walletAddress := w;
                  cs_balance := pretty b;
                  cs_balanceFormatted := formatRBTC env b;
                  cs_hasPaid := false;
                  cs_availableRequests := 0 |})])).
  { subst out. rewrite (paymentMiddleware_restricted _ _ _ Hg).
    by rewrite (x402_unpaid (with_routeMetadata req policy) w _ _ Hh Hw Hv). }
  split; [done|]. split; [by rewrite Hout|done].
Qed.

(** C9. When two entries of the configuration have the same normalised
    key, the table keeps the policy of the later one; and loading a
    configuration twice gives the same table, hence the same gate state
    and the same handling for every request. *)
Theorem C9_last_write_wins_and_reload_is_idempotent
    pre route1 config1 mid route2 config2 post req :
  routeKeyOf route1 = routeKeyOf route2 ->
  (forall route config, (route, config) ∈ post -> routeKeyOf route <> routeKeyOf route2) ->
  let routeConfig := (pre ++ (route1, config1) :: mid ++ (route2, config2) :: post)%list in
  buildRoutes routeConfig !! routeKeyOf route1 = Some (policyOf route2 config2)
  /\ (routeKey req = routeKeyOf route1 ->
      gateState routeConfig req = Restricted (policyOf route2 config2))
  /\ (forall anyConfig anyReq,
        buildRoutes (anyConfig ++ anyConfig) = buildRoutes anyConfig
        /\ gateState (anyConfig ++ anyConfig) anyReq = gateState anyConfig anyReq
        /\ paymentMiddleware env (anyConfig ++ anyConfig) anyReq
           = paymentMiddleware env anyConfig anyReq).
Proof.
  intros Hk Hpost routeConfig.
  assert (Hl : buildRoutes routeConfig !! routeKeyOf route1
               = Some (policyOf route2 config2)).
  { subst routeConfig. rewrite buildRoutes_lookup, Hk.
    rewrite last_entry_for_app. simpl. rewrite last_entry_for_app. simpl.
    apply last_entry_for_None in Hpost. rewrite Hpost.
    by rewrite decide_True. }
  split; [done|]. split.
  - intros Hreq. apply gateState_Restricted. by rewrite Hreq.
  - intros anyConfig anyReq.
    unfold gateState, paymentMiddleware. by rewrite buildRoutes_twice.
Qed.

End GateFacts.

(** * Scenarios: the gate run against a node *)

Section Scenarios.
Import Js Gate Node.

Lemma C2_witness :
  statuses (paymentMiddleware (Node.envOf (Node.serve (Node.ledgerAfterPaying 2500)))
              Node.serverRoutes
              (Node.get "/api/weather" [("x-wallet-address", "0x12")])).2 = [500].
Proof.
  eapply (C2_malformed_identity_is_rejected_locally
            (Node.envOf (Node.serve (Node.ledgerAfterPaying 2500)))
            Node.serverRoutes
            (Node.get "/api/weather" [("x-wallet-address", "0x12")])
            _ "0x12");
    [by vm_compute | by vm_compute | discriminate | by vm_compute].
Defined.

Lemma C3_witness :
  statuses (paymentMiddleware (Node.envOf Node.unreachable) Node.serverRoutes
              (Node.get "/api/data" [("x-wallet-address", Node.alice)])).2 = [500]
  /\ (402 ∉ statuses (paymentMiddleware (Node.envOf Node.unreachable) Node.serverRoutes
                       (Node.get "/api/data" [("x-wallet-address", Node.alice)])).2).
Proof.
  pose proof (C3_ledger_failure_is_500_never_402
                (Node.envOf Node.unreachable) Node.serverRoutes
                (Node.get "/api/data" [("x-wallet-address", Node.alice)])
                _ Node.alice FnGetPaymentBalance Node.timeout
                ltac:(by vm_compute) ltac:(by vm_compute) ltac:(discriminate)
                ltac:(by vm_compute) ltac:(reflexivity)) as (_ & H500 & H402 & _).
  exact (conj H500 H402).
Defined.

Lemma C4_witness :
  (paymentMiddleware (envOf unreachable) serverRoutes (get "/api/data" [])).2
  = [Respond 400
       (ErrorBody "Missing wallet address"
          "Please include your wallet address in the x-wallet-address header")]
  /\ statuses (paymentMiddleware (envOf unreachable) serverRoutes
                 (get "/api/data" [("x-wallet-address", EmptyString)])).2 = [400].
Proof.
  split.
  - pose proof (C4_missing_identity_is_400_without_ledger
                  (envOf unreachable) serverRoutes (get "/api/data" []) _
                  ltac:(by vm_compute) ltac:(left; by vm_compute)) as (E & _).
    by rewrite E.
  - eapply (C4_missing_identity_is_400_without_ledger
              (envOf unreachable) serverRoutes
              (get "/api/data" [("x-wallet-address", EmptyString)]));
      [by vm_compute | right; by vm_compute].
Defined.


Lemma C6_witness :
  responses (paymentMiddleware (envOf stale) serverRoutes
               (get "/api/data" [("x-wallet-address", alice)])).2
  = [(402, PaymentRequiredBody 402 "Payment Required"
             (payment (generatePaymentInstructions (envOf stale) 1000))
             (metadata (generatePaymentInstructions (envOf stale) 1000))
             {| cs_walletAddress := alice;
                cs_balance := "7000";
                cs_balanceFormatted := "0.000000000000007";
                cs_hasPaid := false;
                cs_availableRequests := 0 |})]
  /\ value (amount (payment (generatePaymentInstructions (envOf stale) 1000))) = "1000".
Proof.
  pose proof (C6_unpaid_response_reports_zero_requests
                (envOf stale) serverRoutes
                (get "/api/data" [("x-wallet-address", alice)])
                _ alice 7000 7 1000
                ltac:(by vm_compute) ltac:(by vm_compute) ltac:(discriminate)
                ltac:(by vm_compute) ltac:(reflexivity) ltac:(reflexivity)
                ltac:(reflexivity) ltac:(reflexivity))
    as (E & _ & V).
  split; [by rewrite E | by rewrite V].
Defined.

Lemma C9_witness :
  gateState [("get /x", mkRouteOptions None (Some "first"));
             ("GET /x", mkRouteOptions None (Some "second"))]
    (get "/x" [])
  = Restricted {| rp_method := "GET"; rp_path := Some "/x";
                  rp_accepts := ["rootstock"]; rp_description := "second" |}.
Proof.
  apply (C9_last_write_wins_and_reload_is_idempotent (envOf unreachable)
           [] "get /x" (mkRouteOptions None (Some "first"))
           [] "GET /x" (mkRouteOptions None (Some "second")) [] (get "/x" []));
    [reflexivity | | reflexivity].
  intros route config Hin. by apply elem_of_nil in Hin.
Defined.

(** Price 1000, balance 0: the verifier reports nothing paid and the
    restricted route answers 402 asking for "1000". *)
Example scenario_A :
  (verifyPayment (envOf (serve (ledgerAfterPaying 0))) alice).2
  = inr {| hasPaid := false; balance := 0; availableRequests := 0;
           pricePerRequest := 1000 |}
  /\ exists pay meta status,
       responses (paymentMiddleware (envOf (serve (ledgerAfterPaying 0))) serverRoutes
                    (get "/api/data" [("x-wallet-address", alice)])).2
       = [(402, PaymentRequiredBody 402 "Payment Required" pay meta status)]
       /\ value (amount pay) = "1000".
Proof. split; [by vm_compute|]. do 3 eexists. split; by vm_compute. Qed.

(** After paying 2500 the request passes through with two requests
    attached. *)
Example scenario_B :
  PayPerAPI.getAvailableRequests (ledgerAfterPaying 2500) (account alice)
  = PayPerAPI.Success 2
  /\ (paymentMiddleware (envOf (serve (ledgerAfterPaying 2500))) serverRoutes
        (get "/api/data" [("x-wallet-address", alice)])).2
     = VerifyCalled alice :: (allReads alice ++ [Next])%list
  /\ paymentInfo
       (paymentMiddleware (envOf (serve (ledgerAfterPaying 2500))) serverRoutes
          (get "/api/data" [("x-wallet-address", alice)])).1
     = Some {| pi_walletAddress := alice; pi_balance := "2500";
               pi_availableRequests := 2; pi_pricePerRequest := "1000" |}.
Proof. repeat split; by vm_compute. Qed.

(** The owner then deducts 1000: one request is left. *)
Example scenario_C :
  PayPerAPI.getAvailableRequests
    (PayPerAPI.commit (ledgerAfterPaying 2500)
       (PayPerAPI.deductPayment (ledgerAfterPaying 2500) deployer (account alice) 1000))
    (account alice)
  = PayPerAPI.Success 1.
Proof. by vm_compute. Qed.

End Scenarios.

(** * The ledger under sequences of calls *)

Section ChainFacts.
Import PayPerAPI Chain.

Implicit Types (st : Storage) (tx : Tx) (txs : list Tx) (a who : address).

Lemma andThen_spec r (rest : Storage -> Storage * list Event * bool) st :
  andThen r rest st
  = ((rest (commit st r)).1.1,
     (emitted r ++ (rest (commit st r)).1.2)%list,
     (rest (commit st r)).2).
Proof. unfold andThen. by destruct (rest (commit st r)) as [[st' evs] ok]. Qed.

Lemma run_cons st tx txs :
  run st (tx :: txs)
  = ((run (commit st (exec st tx)) txs).1,
     (emitted (exec st tx) ++ (run (commit st (exec st tx)) txs).2)%list).
Proof. simpl. by destruct (run (commit st (exec st tx)) txs). Qed.

(** Each step of a recipient's code is a call like any other. *)
Lemma runCode_pay st from value rest :
  runCode st (ThenPay from value rest)
  = andThen (exec st (mkTx from (CallPay value))) (fun st' => runCode st' rest) st.
Proof. reflexivity. Qed.

Lemma runCode_deductPayment st from payer amount rest :
  runCode st (ThenDeductPayment from payer amount rest)
  = andThen (exec st (mkTx from (CallDeductPayment payer amount)))
      (fun st' => runCode st' rest) st.
Proof. reflexivity. Qed.

Lemma runCode_withdraw st from onReceive rest :
  runCode st (ThenWithdraw from onReceive rest)
  = andThen (exec st (mkTx from (CallWithdraw onReceive)))
      (fun st' => runCode st' rest) st.
Proof. reflexivity. Qed.

(** Turn the step at the head of a recipient's code into an [exec]. *)
Ltac head_as_exec :=
  first [ rewrite runCode_pay | rewrite runCode_deductPayment | rewrite runCode_withdraw ];
  rewrite andThen_spec; cbn [fst snd].

Lemma exec_well_formed_given st tx :
  (forall code, call tx = CallWithdraw code ->
     forall held, well_formed held -> well_formed (runCode held code).1.1) ->
  well_formed st -> typed tx -> well_formed (commit st (exec st tx)).
Proof.
  intros Hcode Hwf Ht. destruct tx as [s [v|payer amount|code]]; unfold exec; simpl.
  - by apply pay_well_formed.
  - apply deductPayment_well_formed; [done|]. apply Ht.
  - apply withdraw_well_formed; [|done]. by apply Hcode.
Qed.

Lemma runCode_well_formed code st :
  typedCode code -> well_formed st -> well_formed (runCode st code).1.1.
Proof.
  revert st. induction code as [ok|from v rest IH|from payer amount rest IH
                               |from onReceive IHon rest IH]; intros st Ht Hwf.
  - done.
  - destruct Ht as [Hv Hrest]. head_as_exec. apply IH; [done|].
    apply exec_well_formed_given; [discriminate|done|done].
  - destruct Ht as [Hv Hrest]. head_as_exec. apply IH; [done|].
    apply exec_well_formed_given; [discriminate|done|done].
  - destruct Ht as [Hon Hrest]. head_as_exec. apply IH; [done|].
    apply exec_well_formed_given; [|done|done].
    intros code [= <-] held. by apply IHon.
Qed.

Lemma exec_well_formed st tx :
  well_formed st -> typed tx -> well_formed (commit st (exec st tx)).
Proof.
  intros Hwf Ht. apply exec_well_formed_given; [|done|done].
  intros code E held. apply runCode_well_formed.
  unfold typed in Ht. by rewrite E in Ht.
Qed.

(** X1. Whatever calls with [uint256] arguments follow the creation of
    a ledger, every balance stays within [0, 2^256 - 1], the price stays
    positive and the held value never goes below zero. *)
Theorem run_keeps_ledger_well_formed deployer price st0 txs :
  price <= MAX_UINT256 ->
  constructor deployer price = Success st0 ->
  Forall typed txs ->
  well_formed (run st0 txs).1
  /\ forall a, 0 <= getPaymentBalance (run st0 txs).1 a <= MAX_UINT256.
Proof.
  intros Hmax Hc Htyped.
  assert (Hwf : well_formed (run st0 txs).1).
  { pose proof (constructor_well_formed _ _ _ Hmax Hc) as Hwf0.
    clear Hc. revert st0 Hwf0.
    induction Htyped as [|tx txs Ht _ IH]; intros st0 Hwf0; [done|].
    rewrite run_cons. simpl. apply IH. by apply exec_well_formed. }
  split; [done|]. intros a. destruct Hwf as (_ & Hb & _). apply Hb.
Qed.

Lemma exec_immutables_given st tx :
  (forall code, call tx = CallWithdraw code ->
     forall held, pricePerRequest (runCode held code).1.1 = pricePerRequest held
                  /\ owner (runCode held code).1.1 = owner held) ->
  pricePerRequest (commit st (exec st tx)) = pricePerRequest st
  /\ owner (commit st (exec st tx)) = owner st.
Proof.
  intros Hcode. destruct tx as [s [v|payer amount|code]]; unfold exec; simpl.
  - destruct (pay_cases st s v) as [[_ E]|[(_ & _ & E)|(_ & _ & E)]];
      by rewrite E.
  - destruct (deductPayment_cases st s payer amount)
      as [[_ E]|[(_ & _ & E)|(_ & _ & E)]]; by rewrite E.
  - destruct (withdraw_cases st s (fun held => runCode held code))
      as [(_ & _ & _ & E)|(_ & _ & -> & _)]; [|done].
    rewrite E. simpl. apply (Hcode code eq_refl (emptied st)).
Qed.

Lemma runCode_immutables code st :
  pricePerRequest (runCode st code).1.1 = pricePerRequest st
  /\ owner (runCode st code).1.1 = owner st.
Proof.
  revert st. induction code as [ok|from v rest IH|from payer amount rest IH
                               |from onReceive IHon rest IH]; intros st.
  - done.
  - head_as_exec. destruct (IH (commit st (exec st (mkTx from (CallPay v))))) as [-> ->].
    apply exec_immutables_given. discriminate.
  - head_as_exec.
    destruct (IH (commit st (exec st (mkTx from (CallDeductPayment payer amount)))))
      as [-> ->].
    apply exec_immutables_given. discriminate.
  - head_as_exec.
    destruct (IH (commit st (exec st (mkTx from (CallWithdraw onReceive))))) as [-> ->].
    apply exec_immutables_given. intros code [= <-]. apply IHon.
Qed.

Lemma exec_immutables st tx :
  pricePerRequest (commit st (exec st tx)) = pricePerRequest st
  /\ owner (commit st (exec st tx)) = owner st.
Proof. apply exec_immutables_given. intros code _. apply runCode_immutables. Qed.

Lemma run_immutables st txs :
  pricePerRequest (run st txs).1 = pricePerRequest st
  /\ owner (run st txs).1 = owner st.
Proof.
  revert st. induction txs as [|tx txs IH]; intros st; [done|].
  rewrite run_cons. simpl.
  destruct (IH (commit st (exec st tx))) as [-> ->]. apply exec_immutables.
Qed.

(** X2. The price and the owner fixed by the constructor are the same
    after any sequence of calls, by anyone, and so are the answers of
    the two public getters the gate and the owner-only guards use. *)
Theorem run_keeps_price_and_owner deployer price st0 txs :
  constructor deployer price = Success st0 ->
  pricePerRequest (run st0 txs).1 = price
  /\ owner (run st0 txs).1 = deployer.
Proof.
  intros Hc. destruct (run_immutables st0 txs) as [-> ->].
  unfold constructor in Hc. destruct (negb (0 <? price)); [done|].
  by injection Hc as <-.
Qed.

Lemma received_app evs1 evs2 :
  received (evs1 ++ evs2) = received evs1 + received evs2.
Proof.
  induction evs1 as [|[payer amount nb|to amount] rest IH]; simpl; lia.
Qed.

Lemma withdrawn_app evs1 evs2 :
  withdrawn (evs1 ++ evs2) = withdrawn evs1 + withdrawn evs2.
Proof.
  induction evs1 as [|[payer amount nb|to amount] rest IH]; simpl; lia.
Qed.

Lemma receivedFrom_app who evs1 evs2 :
  receivedFrom who (evs1 ++ evs2) = receivedFrom who evs1 + receivedFrom who evs2.
Proof.
  induction evs1 as [|[payer amount nb|to amount] rest IH]; simpl; lia.
Qed.

Lemma exec_held_given st tx :
  (forall code, call tx = CallWithdraw code ->
     forall held, selfBalance (runCode held code).1.1
                  = selfBalance held + received (runCode held code).1.2
                    - withdrawn (runCode held code).1.2) ->
  selfBalance (commit st (exec st tx))
  = selfBalance st + received (emitted (exec st tx)) - withdrawn (emitted (exec st tx)).
Proof.
  intros Hcode. destruct tx as [s [v|payer amount|code]]; unfold exec; simpl.
  - destruct (pay_cases st s v) as [[_ E]|[(_ & _ & E)|(_ & _ & E)]];
      rewrite E; simpl; lia.
  - destruct (deductPayment_cases st s payer amount)
      as [[_ E]|[(_ & _ & E)|(_ & _ & E)]]; rewrite E; simpl; lia.
  - destruct (withdraw_cases st s (fun held => runCode held code))
      as [(_ & _ & _ & E)|(_ & _ & -> & ->)]; [|simpl; lia].
    rewrite E. simpl. rewrite (Hcode code eq_refl (emptied st)).
    rewrite received_app, withdrawn_app. simpl. lia.
Qed.

Lemma runCode_held code st :
  selfBalance (runCode st code).1.1
  = selfBalance st + received (runCode st code).1.2 - withdrawn (runCode st code).1.2.
Proof.
  revert st. induction code as [ok|from v rest IH|from payer amount rest IH
                               |from onReceive IHon rest IH]; intros st.
  - simpl. lia.
  - head_as_exec. rewrite IH, received_app, withdrawn_app.
    rewrite exec_held_given by discriminate. lia.
  - head_as_exec. rewrite IH, received_app, withdrawn_app.
    rewrite exec_held_given by discriminate. lia.
  - head_as_exec. rewrite IH, received_app, withdrawn_app.
    rewrite exec_held_given; [lia|]. intros code [= <-]. apply IHon.
Qed.

Lemma exec_held st tx :
  selfBalance (commit st (exec st tx))
  = selfBalance st + received (emitted (exec st tx)) - withdrawn (emitted (exec st tx)).
Proof. apply exec_held_given. intros code _. apply runCode_held. Qed.

(** X3. After any sequence of calls the value held by the contract is
    the value held before, plus the amounts of the [PaymentReceived]
    events, minus the amounts of the [FundsWithdrawn] events: a
    deduction moves no currency, and a withdrawal takes out everything
    paid in since the last one. *)
Theorem held_value_is_received_minus_withdrawn st txs :
  getContractBalance (run st txs).1
  = getContractBalance st + received (run st txs).2 - withdrawn (run st txs).2.
Proof.
  unfold getContractBalance. revert st.
  induction txs as [|tx txs IH]; intros st; [simpl; lia|].
  rewrite run_cons. simpl. rewrite IH, exec_held, received_app, withdrawn_app. lia.
Qed.

Lemma exec_balance_without_deduction_given st tx a :
  (forall code, call tx = CallWithdraw code ->
     forall held, owner held = owner st ->
       balanceOf (runCode held code).1.1 a
       = balanceOf held a + receivedFrom a (runCode held code).1.2
       /\ 0 <= receivedFrom a (runCode held code).1.2) ->
  match call tx with CallDeductPayment _ _ => sender tx <> owner st | _ => True end ->
  balanceOf (commit st (exec st tx)) a
  = balanceOf st a + receivedFrom a (emitted (exec st tx))
  /\ 0 <= receivedFrom a (emitted (exec st tx)).
Proof.
  intros Hcode Hd. destruct tx as [s [v|payer amount|code]]; unfold exec; simpl in *.
  - destruct (pay_cases st s v) as [[_ E]|[(_ & _ & E)|(Hpos & _ & E)]];
      rewrite E; simpl; try lia.
    destruct (N.eqb_spec s a) as [->|Hne].
    + rewrite balanceOf_insert_eq. lia.
    + rewrite balanceOf_insert_ne by done. lia.
  - destruct (deductPayment_cases st s payer amount)
      as [[_ E]|[(Ho & _ & E)|(Ho & _ & E)]]; rewrite E; simpl; try lia; done.
  - destruct (withdraw_cases st s (fun held => runCode held code))
      as [(_ & _ & _ & E)|(_ & _ & -> & ->)]; [|simpl; lia].
    rewrite E. simpl. rewrite receivedFrom_app. simpl.
    destruct (Hcode code eq_refl (emptied st) eq_refl) as [-> Hr].
    unfold balanceOf; simpl. lia.
Qed.

Lemma runCode_balance_without_deduction code st o a :
  owner st = o -> codeDeductsAs o code = false ->
  balanceOf (runCode st code).1.1 a
  = balanceOf st a + receivedFrom a (runCode st code).1.2
  /\ 0 <= receivedFrom a (runCode st code).1.2.
Proof.
  revert st. induction code as [ok|from v rest IH|from payer amount rest IH
                               |from onReceive IHon rest IH]; intros st Ho Hd.
  - simpl. lia.
  - head_as_exec. rewrite receivedFrom_app.
    destruct (exec_balance_without_deduction_given st (mkTx from (CallPay v)) a)
      as [Eb Hr]; [discriminate|done|].
    destruct (IH (commit st (exec st (mkTx from (CallPay v))))) as [-> Hr'];
      [by rewrite (proj2 (exec_immutables st _))|done|]. lia.
  - simpl in Hd. apply orb_false_iff in Hd as [Hfrom Hrest].
    apply N.eqb_neq in Hfrom. head_as_exec. rewrite receivedFrom_app.
    destruct (exec_balance_without_deduction_given st
                (mkTx from (CallDeductPayment payer amount)) a)
      as [Eb Hr]; [discriminate|simpl; by rewrite Ho|].
    destruct (IH (commit st (exec st (mkTx from (CallDeductPayment payer amount)))))
      as [-> Hr']; [by rewrite (proj2 (exec_immutables st _))|done|]. lia.
  - simpl in Hd. apply orb_false_iff in Hd as [Hon Hrest].
    head_as_exec. rewrite receivedFrom_app.
    destruct (exec_balance_without_deduction_given st
                (mkTx from (CallWithdraw onReceive)) a)
      as [Eb Hr]; [|done|].
    { intros code [= <-] held Hheld. apply IHon; [by rewrite Hheld|done]. }
    destruct (IH (commit st (exec st (mkTx from (CallWithdraw onReceive)))))
      as [-> Hr']; [by rewrite (proj2 (exec_immutables st _))|done|]. lia.
Qed.

Lemma exec_balance_without_deduction st tx a :
  deductsAs (owner st) tx = false ->
  balanceOf (commit st (exec st tx)) a
  = balanceOf st a + receivedFrom a (emitted (exec st tx))
  /\ 0 <= receivedFrom a (emitted (exec st tx)).
Proof.
  intros Hd. apply exec_balance_without_deduction_given.
  - intros code E held Hheld.
    apply (runCode_balance_without_deduction code held (owner st)); [done|].
    unfold deductsAs in Hd. by rewrite E in Hd.
  - unfold deductsAs in Hd. destruct (call tx); try done. by apply N.eqb_neq.
Qed.

(** X4. As long as the owner deducts nothing, each balance is exactly
    what it was plus what its identity paid in since (as logged by
    [PaymentReceived]): calls by other accounts, and withdrawals, never
    lower anyone's credit, so an identity that has paid keeps passing
    [hasPaid]. *)
Theorem credit_is_kept_until_owner_deducts st txs a :
  Forall (fun tx => deductsAs (owner st) tx = false) txs ->
  getPaymentBalance (run st txs).1 a
  = getPaymentBalance st a + receivedFrom a (run st txs).2
  /\ getPaymentBalance st a <= getPaymentBalance (run st txs).1 a
  /\ (hasPaid st a = true -> hasPaid (run st txs).1 a = true).
Proof.
  unfold getPaymentBalance. intros Hall.
  assert (H : balanceOf (run st txs).1 a = balanceOf st a + receivedFrom a (run st txs).2
              /\ 0 <= receivedFrom a (run st txs).2).
  { revert st Hall. induction txs as [|tx txs IH]; intros st Hall; [simpl; lia|].
    apply Forall_cons in Hall as [Htx Hall].
    rewrite run_cons. simpl. rewrite receivedFrom_app.
    destruct (exec_balance_without_deduction st tx a Htx) as [Eb Hr].
    destruct (IH (commit st (exec st tx))) as [-> Hr'].
    { destruct (exec_immutables st tx) as [_ ->]. exact Hall. }
    lia. }
  destruct H as [E Hr]. split; [done|]. split; [lia|].
  unfold hasPaid. destruct (run_immutables st txs) as [-> _].
  rewrite !Z.leb_le. lia.
Qed.

Lemma exec_balance_bound_given st tx a :
  (forall code, call tx = CallWithdraw code ->
     forall held, balanceOf (runCode held code).1.1 a
                  <= balanceOf held a + receivedFrom a (runCode held code).1.2) ->
  typed tx ->
  balanceOf (commit st (exec st tx)) a
  <= balanceOf st a + receivedFrom a (emitted (exec st tx)).
Proof.
  intros Hcode Ht. destruct tx as [s [v|payer amount|code]]; unfold exec; simpl in *.
  - destruct (pay_cases st s v) as [[_ E]|[(_ & _ & E)|(Hpos & _ & E)]];
      rewrite E; simpl; try lia.
    destruct (N.eqb_spec s a) as [->|Hne].
    + rewrite balanceOf_insert_eq. lia.
    + rewrite balanceOf_insert_ne by done. lia.
  - destruct (deductPayment_cases st s payer amount)
      as [[_ E]|[(Ho & _ & E)|(Ho & _ & E)]]; rewrite E; simpl; try lia.
    destruct (decide (payer = a)) as [->|Hne].
    + rewrite balanceOf_insert_eq. destruct Ht. lia.
    + rewrite balanceOf_insert_ne by done. lia.
  - destruct (withdraw_cases st s (fun held => runCode held code))
      as [(_ & _ & _ & E)|(_ & _ & -> & ->)]; [|simpl; lia].
    rewrite E. simpl. rewrite receivedFrom_app. simpl.
    pose proof (Hcode code eq_refl (emptied st)) as H.
    unfold balanceOf in *; simpl in *. lia.
Qed.

Lemma runCode_balance_bound code st a :
  typedCode code ->
  balanceOf (runCode st code).1.1 a
  <= balanceOf st a + receivedFrom a (runCode st code).1.2.
Proof.
  revert st. induction code as [ok|from v rest IH|from payer amount rest IH
                               |from onReceive IHon rest IH]; intros st Ht.
  - simpl. lia.
  - destruct Ht as [Hv Hrest]. head_as_exec. rewrite receivedFrom_app.
    pose proof (exec_balance_bound_given st (mkTx from (CallPay v)) a
                  ltac:(discriminate) Hv).
    pose proof (IH (commit st (exec st (mkTx from (CallPay v)))) Hrest). lia.
  - destruct Ht as [Hv Hrest]. head_as_exec. rewrite receivedFrom_app.
    pose proof (exec_balance_bound_given st (mkTx from (CallDeductPayment payer amount)) a
                  ltac:(discriminate) Hv).
    pose proof (IH (commit st (exec st (mkTx from (CallDeductPayment payer amount))))
                  Hrest). lia.
  - destruct Ht as [Hon Hrest]. head_as_exec. rewrite receivedFrom_app.
    assert (Hc : forall code, call (mkTx from (CallWithdraw onReceive)) = CallWithdraw code ->
                 forall held, balanceOf (runCode held code).1.1 a
                              <= balanceOf held a + receivedFrom a (runCode held code).1.2).
    { intros code [= <-] held. by apply IHon. }
    pose proof (exec_balance_bound_given st (mkTx from (CallWithdraw onReceive)) a Hc Hon).
    pose proof (IH (commit st (exec st (mkTx from (CallWithdraw onReceive)))) Hrest). lia.
Qed.

Lemma exec_balance_bound st tx a :
  typed tx ->
  balanceOf (commit st (exec st tx)) a
  <= balanceOf st a + receivedFrom a (emitted (exec st tx)).
Proof.
  intros Ht. apply exec_balance_bound_given; [|done].
  intros code E held. apply runCode_balance_bound.
  unfold typed in Ht. by rewrite E in Ht.
Qed.

(** X5. No identity is ever credited more than it paid: after any
    sequence of calls with [uint256] arguments, a balance is at most the
    earlier balance plus the amounts that identity paid in. *)
Theorem credit_never_exceeds_payments st txs a :
  Forall typed txs ->
  getPaymentBalance (run st txs).1 a
  <= getPaymentBalance st a + receivedFrom a (run st txs).2.
Proof.
  unfold getPaymentBalance. intros Hall. revert st.
  induction Hall as [|tx txs Ht _ IH]; intros st; [simpl; lia|].
  rewrite run_cons. simpl. rewrite receivedFrom_app.
  pose proof (exec_balance_bound st tx a Ht).
  pose proof (IH (commit st (exec st tx))). lia.
Qed.

(** X6. Requests are bought and spent in whole prices: paying [k]
    times the price raises [getAvailableRequests] by exactly [k], and
    an owner deduction of one price from an identity that has paid
    lowers it by exactly one. *)
Theorem requests_count_whole_prices st who k :
  0 < pricePerRequest st -> 0 <= balanceOf st who -> 0 < k ->
  balanceOf st who + k * pricePerRequest st <= MAX_UINT256 ->
  getAvailableRequests (commit st (pay st who (k * pricePerRequest st))) who
  = Success (balanceOf st who / pricePerRequest st + k)
  /\ (hasPaid st who = true ->
      getAvailableRequests
        (commit st (deductPayment st (owner st) who (pricePerRequest st))) who
      = Success (balanceOf st who / pricePerRequest st - 1)).
Proof.
  intros Hp Hb Hk Hfit. split.
  - rewrite pay_success by nia. simpl.
    unfold getAvailableRequests; simpl. rewrite balanceOf_insert_eq.
    replace (pricePerRequest st =? 0) with false by (symmetry; apply Z.eqb_neq; lia).
    by rewrite Z.div_add by lia.
  - intros Hpaid. apply Z.leb_le in Hpaid.
    destruct (deductPayment_cases st (owner st) who (pricePerRequest st))
      as [[Hno _]|[(_ & Hlt & _)|(_ & _ & E)]]; [done|lia|].
    rewrite E. simpl. unfold getAvailableRequests; simpl. rewrite balanceOf_insert_eq.
    replace (pricePerRequest st =? 0) with false by (symmetry; apply Z.eqb_neq; lia).
    replace (balanceOf st who - pricePerRequest st)
      with (balanceOf st who + (-1) * pricePerRequest st) by lia.
    rewrite Z.div_add by lia. f_equal; lia.
Qed.

(** X7. A payment followed by an owner deduction of the same amount
    from the same identity is invisible to the three views, for every
    identity; the currency paid stays in the contract. *)
Theorem pay_then_deduct_round_trip st who amount :
  0 <= balanceOf st who ->
  0 < amount -> balanceOf st who + amount <= MAX_UINT256 ->
  let st1 := commit st (pay st who amount) in
  let st2 := commit st1 (deductPayment st1 (owner st) who amount) in
  (forall id,
     getPaymentBalance st2 id = getPaymentBalance st id
     /\ hasPaid st2 id = hasPaid st id
     /\ getAvailableRequests st2 id = getAvailableRequests st id)
  /\ getContractBalance st2 = getContractBalance st + amount.
Proof.
  intros Hnn Hpos Hfit st1 st2.
  assert (E1 : pay st who amount = Success (st1, emitted (pay st who amount))).
  { subst st1. by rewrite pay_success. }
  subst st2 st1. rewrite pay_success by done. simpl.
  set (st1 := mkStorage _ _ _ _).
  destruct (deductPayment_cases st1 (owner st) who amount)
    as [[Hno _]|[(_ & Hlt & _)|(_ & _ & E)]].
  - done.
  - subst st1. rewrite balanceOf_insert_eq in Hlt. lia.
  - rewrite E. simpl.
    assert (Hb : forall id,
               balanceOf (mkStorage (pricePerRequest st) (owner st)
                            (<[who := balanceOf st1 who - amount]> (paymentBalances st1))
                            (selfBalance st + amount)) id = balanceOf st id).
    { intros id. destruct (decide (who = id)) as [->|Hne].
      - rewrite balanceOf_insert_eq. subst st1. rewrite balanceOf_insert_eq. lia.
      - rewrite balanceOf_insert_ne by done. subst st1.
        by rewrite balanceOf_insert_ne. }
    split; [|done]. intros id.
    unfold getPaymentBalance, hasPaid, getAvailableRequests; simpl.
    by rewrite Hb.
Qed.

(** X8. Right after a successful withdrawal to an owner whose
    receiving code makes no call back, nothing is left to take: the
    next [withdraw] reverts with "No funds to withdraw", whatever its
    recipient would do, until a payment arrives; the owner then
    withdraws exactly that payment, and the other payers' credit is
    what it was before the first withdrawal. *)
Theorem withdraw_empties_until_next_payment st s success :
  succeeded (withdraw st s (noCallback success)) = true ->
  let st1 := commit st (withdraw st s (noCallback success)) in
  (forall recipient : Recipient,
     withdraw st1 s recipient = Revert "No funds to withdraw")
  /\ forall who amount,
       succeeded (pay st1 who amount) = true ->
       let st2 := commit st1 (pay st1 who amount) in
       emitted (withdraw st2 s (noCallback true)) = [FundsWithdrawn (owner st) amount]
       /\ forall id, id <> who -> getPaymentBalance
                                   (commit st2 (withdraw st2 s (noCallback true))) id
                                 = getPaymentBalance st id.
Proof.
  intros Hs st1.
  destruct (withdraw_cases st s (noCallback success)) as [(Ho & Hh & Ha & E)|(_ & E & _)];
    [|by rewrite E in Hs].
  subst st1. rewrite E. cbn [commit noCallback fst snd].
  set (st1 := emptied st). split.
  - intros recipient. unfold withdraw, st1; simpl.
    by replace (N.eqb s (owner st)) with true by (symmetry; by apply N.eqb_eq).
  - intros who amount Hpay.
    destruct (pay_cases st1 who amount) as [[_ P]|[(_ & _ & P)|(Hpos & _ & P)]];
      try (by rewrite P in Hpay).
    rewrite P. cbn [commit].
    unfold withdraw, st1, noCallback, emptied;
      cbn [owner selfBalance pricePerRequest paymentBalances].
    replace (N.eqb s (owner st)) with true by (symmetry; by apply N.eqb_eq).
    replace (0 <? 0 + amount) with true by (symmetry; apply Z.ltb_lt; lia).
    cbn [negb emitted commit app]. split; [by rewrite Z.add_0_l|].
    intros id Hne. unfold getPaymentBalance, balanceOf;
      cbn [paymentBalances]. by rewrite lookup_insert_ne.
Qed.

Lemma run_deductions (j : nat) st o p who :
  owner st = o -> 0 <= p -> Z.of_nat j * p <= balanceOf st who ->
  balanceOf (run st (replicate j (mkTx o (CallDeductPayment who p)))).1 who
  = balanceOf st who - Z.of_nat j * p
  /\ pricePerRequest (run st (replicate j (mkTx o (CallDeductPayment who p)))).1
     = pricePerRequest st.
Proof.
  revert st. induction j as [|j IH]; intros st Ho Hp Hle.
  - simpl. split; [lia|done].
  - rewrite Nat2Z.inj_succ in *. cbn [replicate]. rewrite run_cons. cbn [fst].
    change (exec st (mkTx o (CallDeductPayment who p))) with (deductPayment st o who p).
    destruct (deductPayment_cases st o who p)
      as [[Hno _]|[(_ & Hlt & _)|(_ & _ & E)]]; [by rewrite Ho in Hno|nia|].
    rewrite E. cbn [commit].
    set (st1 := mkStorage _ _ _ _).
    destruct (IH st1) as [-> ->]; [done|done| |].
    + unfold st1. rewrite balanceOf_insert_eq. nia.
    + unfold st1. rewrite balanceOf_insert_eq. split; [lia|done].
Qed.

(** X19. Prepaid requests are used up one by one: after an identity
    with no credit pays [k] prices and the owner deducts one price [j]
    times ([j <= k]), [getAvailableRequests] answers [k - j], and
    [hasPaid] holds exactly while [j < k]. *)
Theorem prepaid_requests_are_used_up_one_by_one st who (k j : nat) :
  0 < pricePerRequest st -> balanceOf st who = 0 ->
  (0 < k)%nat -> Z.of_nat k * pricePerRequest st <= MAX_UINT256 ->
  (j <= k)%nat ->
  let p := pricePerRequest st in
  let txs := mkTx who (CallPay (Z.of_nat k * p))
             :: replicate j (mkTx (owner st) (CallDeductPayment who p)) in
  getAvailableRequests (run st txs).1 who = Success (Z.of_nat k - Z.of_nat j)
  /\ (hasPaid (run st txs).1 who = true <-> (j < k)%nat).
Proof.
  intros Hp Hb Hk Hfit Hj p txs. subst txs.
  rewrite run_cons. cbn [fst].
  change (exec st (mkTx who (CallPay (Z.of_nat k * p)))) with (pay st who (Z.of_nat k * p)).
  rewrite pay_success by (fold p; nia). cbn [commit].
  set (st1 := mkStorage _ _ _ _).
  assert (B1 : balanceOf st1 who = Z.of_nat k * p).
  { unfold st1. rewrite balanceOf_insert_eq. lia. }
  destruct (run_deductions j st1 (owner st) p who) as [Eb Ep];
    [done|lia|rewrite B1; nia|].
  unfold getAvailableRequests, hasPaid. rewrite Eb, Ep, B1.
  change (pricePerRequest st1) with p.
  replace (Z.of_nat k * p - Z.of_nat j * p) with ((Z.of_nat k - Z.of_nat j) * p) by lia.
  replace (p =? 0) with false by (symmetry; apply Z.eqb_neq; lia).
  rewrite Z.div_mul by lia. split; [done|].
  rewrite Z.leb_le. split; intros H; nia.
Qed.

End ChainFacts.

(** * More on the gate: every path through the middleware *)

Section GateOutcomes.
Import Js Gate Server.
Context (env : Env).

Implicit Types (routeConfig : list (string * RouteOptions)) (req : Request).

Lemma x402_paid req w reads v :
  headers req !! "x-wallet-address" = Some w -> w <> EmptyString ->
  verifyPayment env w = (reads, inr v) -> hasPaid v = true ->
  x402PaymentMiddleware env req
  = (with_paymentInfo req
       {| pi_walletAddress := w;
          pi_balance := pretty (balance v);
          pi_availableRequests := availableRequests v;
          pi_pricePerRequest := pretty (pricePerRequest v) |},
     VerifyCalled w :: (reads ++ [Next])%list).
Proof.
  intros Hh Hw Hv Hp. unfold x402PaymentMiddleware. rewrite Hh.
  destruct w as [|c r]; [done|]. simpl. by rewrite Hv, Hp.
Qed.

Lemma verifyPayment_reads w :
  (verifyPayment env w).1 = if isAddress env w then allReads w else [].
Proof. unfold verifyPayment. by destruct (isAddress env w). Qed.

Lemma truthy_header (h : option string) :
  truthy h = true -> exists w, h = Some w /\ w <> EmptyString.
Proof. destruct h as [[|c r]|]; simpl; try done. intros _. by eexists. Qed.

(** The four ways [x402PaymentMiddleware] can end. *)
Lemma x402_cases req :
  (truthy (headers req !! "x-wallet-address") = false
   /\ x402PaymentMiddleware env req
      = (req, [Respond 400
                 (ErrorBody "Missing wallet address"
                    "Please include your wallet address in the x-wallet-address header")]))
  \/ exists w, headers req !! "x-wallet-address" = Some w /\ w <> EmptyString
     /\ ((exists error,
            verifyPayment env w = ((verifyPayment env w).1, inl error)
            /\ x402PaymentMiddleware env req
               = (req, VerifyCalled w :: ((verifyPayment env w).1 ++
                       [Respond 500
                          (ErrorBody "Payment verification failed"
                             (if truthy (err_message error)
                              then interpolate (err_message error)
                              else "Unable to verify payment status"))])%list))
         \/ (exists v,
            verifyPayment env w = ((verifyPayment env w).1, inr v)
            /\ hasPaid v = false
            /\ x402PaymentMiddleware env req
               = (req, VerifyCalled w :: ((verifyPayment env w).1 ++
                       [Respond 402
                          (PaymentRequiredBody 402 "Payment Required"
                             (payment (generatePaymentInstructions env (pricePerRequest v)))
                             (metadata (generatePaymentInstructions env (pricePerRequest v)))
                             {| cs_walletAddress := w;
                                cs_balance := pretty (balance v);
                                cs_balanceFormatted := formatRBTC env (balance v);
                                cs_hasPaid := false;
                                cs_availableRequests := 0 |})])%list))
         \/ (exists v,
            verifyPayment env w = ((verifyPayment env w).1, inr v)
            /\ hasPaid v = true
            /\ x402PaymentMiddleware env req
               = (with_paymentInfo req
                    {| pi_walletAddress := w;
                       pi_balance := pretty (balance v);
                       pi_availableRequests := availableRequests v;
                       pi_pricePerRequest := pretty (pricePerRequest v) |},
                  VerifyCalled w :: ((verifyPayment env w).1 ++ [Next])%list))).
Proof.
  destruct (truthy (headers req !! "x-wallet-address")) eqn:Ht.
  - right. destruct (truthy_header _ Ht) as (w & Hh & Hw). exists w.
    split; [done|]. split; [done|].
    destruct (verifyPayment env w) as [reads [error|v]] eqn:Hv; simpl.
    + left. exists error. split; [done|]. by apply x402_rejected.
    + destruct (hasPaid v) eqn:Hp.
      * right; right. exists v. split; [done|]. split; [done|]. by apply x402_paid.
      * right; left. exists v. split; [done|]. split; [done|]. by apply x402_unpaid.
  - left. split; [done|]. by apply x402_missing.
Qed.

(** X9. Every request gets exactly one outcome from the gate: either
    one response, with status 400, 402 or 500, or one call of [next()],
    never both and never neither; and that outcome is the last thing the
    gate does. *)
Theorem gate_gives_exactly_one_outcome routeConfig req :
  let out := paymentMiddleware env routeConfig req in
  (List.length (filter (fun e => is_respond e = true) out.2)
   + List.length (filter (fun e => is_next e = true) out.2) = 1)%nat
  /\ (statuses out.2 = [] \/ statuses out.2 = [400]
      \/ statuses out.2 = [402] \/ statuses out.2 = [500])
  /\ exists before outcome,
       out.2 = (before ++ [outcome])%list
       /\ (is_respond outcome || is_next outcome = true)
       /\ statuses before = []
       /\ filter (fun e => is_next e = true) before = [].
Proof.
  intros out. subst out.
  destruct (gateState routeConfig req) as [policy|] eqn:Hg.
  - rewrite (paymentMiddleware_restricted env _ _ _ Hg).
    destruct (x402_cases (with_routeMetadata req policy))
      as [[_ E]|(w & _ & _ & [(error & _ & E)|[(v & _ & _ & E)|(v & _ & _ & E)]])];
      rewrite E; clear E; cbn [snd]; try rewrite verifyPayment_reads.
    + split; [done|]. split; [auto|]. by exists [], (Respond 400
        (ErrorBody "Missing wallet address"
           "Please include your wallet address in the x-wallet-address header")).
    + destruct (isAddress env w); (split; [done|]); (split; [auto|]).
      * eexists (VerifyCalled w :: allReads w), _. by split.
      * eexists [VerifyCalled w], _. by split.
    + destruct (isAddress env w); (split; [done|]); (split; [auto|]).
      * eexists (VerifyCalled w :: allReads w), _. by split.
      * eexists [VerifyCalled w], _. by split.
    + destruct (isAddress env w); (split; [done|]); (split; [auto|]).
      * eexists (VerifyCalled w :: allReads w), _. by split.
      * eexists [VerifyCalled w], _. by split.
  - rewrite (paymentMiddleware_unrestricted env _ _ Hg).
    split; [done|]. split; [auto|]. by exists [], Next.
Qed.

Lemma promiseAll_inr_inv c w h b a p :
  promiseAll c w = inr (h, b, a, p) ->
  read_hasPaid c w = inr h /\ read_getPaymentBalance c w = inr b
  /\ read_getAvailableRequests c w = inr a /\ read_pricePerRequest c = inr p.
Proof.
  unfold promiseAll.
  destruct (first_rejection (rejection c w) (settled c)); [done|].
  destruct (read_hasPaid c w), (read_getPaymentBalance c w),
    (read_getAvailableRequests c w), (read_pricePerRequest c); try done.
  by intros [= -> -> -> ->].
Qed.

(** X10. [verifyPayment] resolves exactly when the address is well
    formed and all four reads are fulfilled, and then with the values
    read (the request count converted by [Number]); it issues the four
    reads exactly when the address is well formed, also when it ends
    up rejecting. *)
Theorem verifyPayment_resolves_iff_all_reads_do w v :
  ((verifyPayment env w).2 = inr v
   <-> isAddress env w = true
       /\ exists h b a p,
            read_hasPaid (publicClient env) w = inr h
            /\ read_getPaymentBalance (publicClient env) w = inr b
            /\ read_getAvailableRequests (publicClient env) w = inr a
            /\ read_pricePerRequest (publicClient env) = inr p
            /\ v = {| hasPaid := h; balance := b;
                      availableRequests := Number a; pricePerRequest := p |})
  /\ (verifyPayment env w).1 = (if isAddress env w then allReads w else []).
Proof.
  split; [|apply verifyPayment_reads].
  unfold verifyPayment. destruct (isAddress env w); simpl.
  - split.
    + destruct (promiseAll (publicClient env) w) as [e|[[[h b] a] p]] eqn:P; [done|].
      intros [= <-]. split; [done|]. exists h, b, a, p.
      by destruct (promiseAll_inr_inv _ _ _ _ _ _ P) as (-> & -> & -> & ->).
    + intros (_ & h & b & a & p & R1 & R2 & R3 & R4 & ->).
      by rewrite (promiseAll_fulfilled _ _ _ _ _ _ R1 R2 R3 R4).
  - split; [done|]. by intros [? _].
Qed.

Lemma Number_exact a : Z.abs a < 2 ^ 53 -> Number a = a.
Proof.
  intros H. unfold Number.
  by replace (Z.abs a <? 2 ^ 53) with true by (symmetry; apply Z.ltb_lt; lia).
Qed.

(** X11. On a restricted route, a well-formed identity for which the
    ledger answers [hasPaid = true] is let through: [next()] is called,
    no response is written, and [req.paymentInfo] carries the wallet,
    the balance and the price in decimal and the number of requests,
    which is the ledger's own number whenever that is below 2^53. *)
Theorem paid_request_passes_with_payment_info routeConfig req policy w b a p :
  gateState routeConfig req = Restricted policy ->
  headers req !! "x-wallet-address" = Some w -> w <> EmptyString ->
  isAddress env w = true ->
  read_hasPaid (publicClient env) w = inr true ->
  read_getPaymentBalance (publicClient env) w = inr b ->
  read_getAvailableRequests (publicClient env) w = inr a ->
  read_pricePerRequest (publicClient env) = inr p ->
  let out := paymentMiddleware env routeConfig req in
  out = (with_paymentInfo (with_routeMetadata req policy)
           {| pi_walletAddress := w;
              pi_balance := pretty b;
              pi_availableRequests := Number a;
              pi_pricePerRequest := pretty p |},
         VerifyCalled w :: (allReads w ++ [Next])%list)
  /\ responses out.2 = []
  /\ (0 <= a < 2 ^ 53 ->
      pi_availableRequests <$> paymentInfo out.1 = Some a).
Proof.
  intros Hg Hh Hw Ha R1 R2 R3 R4 out.
  assert (Hv : verifyPayment env w
               = (allReads w, inr {| hasPaid := true; balance := b;
                                     availableRequests := Number a;
                                     pricePerRequest := p |})).
  { unfold verifyPayment.
    by rewrite Ha, (promiseAll_fulfilled _ _ _ _ _ _ R1 R2 R3 R4). }
  assert (Hout : out = (with_paymentInfo (with_routeMetadata req policy)
           {| pi_walletAddress := w;
              pi_balance := pretty b;
              pi_availableRequests := Number a;
              pi_pricePerRequest := pretty p |},
         VerifyCalled w :: (allReads w ++ [Next])%list)).
  { subst out. rewrite (paymentMiddleware_restricted env _ _ _ Hg).
    by rewrite (x402_paid (with_routeMetadata req policy) w _ _ Hh Hw Hv). }
  split; [done|]. rewrite Hout. split; [done|].
  intros Hrange. simpl. by rewrite Number_exact by lia.
Qed.

(** X12. The ledger is consulted only for a restricted route with a
    non-empty identity header of address shape, and then by exactly the
    four reads, once; the verifier is called once exactly when the
    route is restricted and the header is non-empty. *)
Theorem ledger_reads_are_none_or_the_four routeConfig req :
  let out := paymentMiddleware env routeConfig req in
  filter (fun e => is_read e = true) out.2
  = match gateState routeConfig req, headers req !! "x-wallet-address" with
    | Restricted _, Some w =>
        if truthy (Some w) && isAddress env w then allReads w else []
    | _, _ => []
    end
  /\ filter (fun e => is_verify e = true) out.2
     = match gateState routeConfig req, headers req !! "x-wallet-address" with
       | Restricted _, Some w => if truthy (Some w) then [VerifyCalled w] else []
       | _, _ => []
       end.
Proof.
  intros out. subst out.
  destruct (gateState routeConfig req) as [policy|] eqn:Hg.
  - rewrite (paymentMiddleware_restricted env _ _ _ Hg).
    destruct (x402_cases (with_routeMetadata req policy))
      as [[Hf E]|(w & Hh & Hw & [(error & _ & E)|[(v & _ & _ & E)|(v & _ & _ & E)]])];
      rewrite E; clear E; cbn [snd]; try rewrite verifyPayment_reads.
    + cbn [headers with_routeMetadata] in Hf.
      destruct (headers req !! "x-wallet-address") as [[|c r]|]; done.
    + cbn [headers with_routeMetadata] in Hh. rewrite Hh.
      destruct w as [|c r]; [done|]. by destruct (isAddress env (String c r)).
    + cbn [headers with_routeMetadata] in Hh. rewrite Hh.
      destruct w as [|c r]; [done|]. by destruct (isAddress env (String c r)).
    + cbn [headers with_routeMetadata] in Hh. rewrite Hh.
      destruct w as [|c r]; [done|]. by destruct (isAddress env (String c r)).
  - by rewrite (paymentMiddleware_unrestricted env _ _ Hg).
Qed.

(** X13. The gate leaves the request's method, path and headers alone.
    It sets [routeMetadata] exactly on restricted routes, and
    [paymentInfo] only when it calls [next()] on one; so a handler
    behind a restricted route always finds [req.paymentInfo], filled in
    for the wallet named in the header. *)
Theorem gate_touches_only_its_own_fields routeConfig req :
  let out := paymentMiddleware env routeConfig req in
  method out.1 = method req /\ path out.1 = path req /\ headers out.1 = headers req
  /\ routeMetadata out.1
     = match gateState routeConfig req with
       | Restricted policy => Some policy
       | Unrestricted => routeMetadata req
       end
  /\ (filter (fun e => is_next e = true) out.2 = [] -> paymentInfo out.1 = paymentInfo req)
  /\ (gateState routeConfig req = Unrestricted -> paymentInfo out.1 = paymentInfo req)
  /\ (forall policy,
        gateState routeConfig req = Restricted policy ->
        filter (fun e => is_next e = true) out.2 <> [] ->
        exists info,
          paymentInfo out.1 = Some info
          /\ headers req !! "x-wallet-address" = Some (pi_walletAddress info)).
Proof.
  intros out. subst out.
  destruct (gateState routeConfig req) as [policy|] eqn:Hg.
  - rewrite (paymentMiddleware_restricted env _ _ _ Hg).
    destruct (x402_cases (with_routeMetadata req policy))
      as [[Hf E]|(w & Hh & Hw & [(error & _ & E)|[(v & _ & _ & E)|(v & _ & _ & E)]])];
      rewrite E; clear E; cbn [fst snd]; try rewrite verifyPayment_reads.
    + repeat split; try done.
    + repeat split; try done.
      intros policy' _ H. destruct (isAddress env w); by destruct H.
    + repeat split; try done.
      intros policy' _ H. destruct (isAddress env w); by destruct H.
    + repeat split; try done.
      * intros H. destruct (isAddress env w); discriminate H.
      * intros policy' _ _. eexists. split; [done|]. exact Hh.
  - rewrite (paymentMiddleware_unrestricted env _ _ Hg). repeat split; try done.
Qed.

(** X14. When the four reads answer from one ledger state, the gate
    decides as the ledger would: an identity whose balance covers the
    price is passed on, with at least one request attached, and any
    other gets the 402, for which the ledger's own request count is
    indeed the zero that the response reports. *)
Theorem gate_decides_as_the_ledger routeConfig req policy w st a :
  gateState routeConfig req = Restricted policy ->
  headers req !! "x-wallet-address" = Some w -> w <> EmptyString ->
  isAddress env w = true ->
  0 < PayPerAPI.pricePerRequest st -> 0 <= PayPerAPI.balanceOf st a ->
  read_hasPaid (publicClient env) w = inr (PayPerAPI.hasPaid st a) ->
  read_getPaymentBalance (publicClient env) w = inr (PayPerAPI.getPaymentBalance st a) ->
  (forall n, PayPerAPI.getAvailableRequests st a = PayPerAPI.Success n ->
             read_getAvailableRequests (publicClient env) w = inr n) ->
  read_pricePerRequest (publicClient env) = inr (PayPerAPI.pricePerRequest st) ->
  let out := paymentMiddleware env routeConfig req in
  let b := PayPerAPI.balanceOf st a in
  let p := PayPerAPI.pricePerRequest st in
  (p <= b ->
     statuses out.2 = [] /\ filter (fun e => is_next e = true) out.2 = [Next]
     /\ pi_availableRequests <$> paymentInfo out.1 = Some (Number (b / p))
     /\ 1 <= b / p)
  /\ (b < p ->
     statuses out.2 = [402] /\ filter (fun e => is_next e = true) out.2 = []
     /\ PayPerAPI.getAvailableRequests st a = PayPerAPI.Success 0).
Proof.
  intros Hg Hh Hw Ha Hp Hb R1 R2 R3 R4 out b p.
  assert (Hn : PayPerAPI.getAvailableRequests st a = PayPerAPI.Success (b / p)).
  { unfold PayPerAPI.getAvailableRequests. fold p b.
    by replace (p =? 0) with false by (symmetry; apply Z.eqb_neq; lia). }
  specialize (R3 _ Hn).
  assert (Hv : verifyPayment env w
               = (allReads w, inr {| hasPaid := PayPerAPI.hasPaid st a;
                                     balance := b;
                                     availableRequests := Number (b / p);
                                     pricePerRequest := p |})).
  { unfold verifyPayment.
    by rewrite Ha, (promiseAll_fulfilled _ _ _ _ _ _ R1 R2 R3 R4). }
  subst out. rewrite (paymentMiddleware_restricted env _ _ _ Hg). split.
  - intros Hle.
    assert (Hpaid : PayPerAPI.hasPaid st a = true) by (by apply Z.leb_le).
    rewrite (x402_paid (with_routeMetadata req policy) w _ _ Hh Hw Hv Hpaid).
    repeat split; try done. by apply floor_div_ge_1.
  - intros Hlt.
    assert (Hunpaid : PayPerAPI.hasPaid st a = false) by (by apply Z.leb_gt).
    rewrite (x402_unpaid env (with_routeMetadata req policy) w _ _ Hh Hw Hv Hunpaid).
    repeat split; try done. rewrite Hn. f_equal. apply Z.div_small. lia.
Qed.

(** X15. The status endpoint and the gate never disagree about a
    caller: for a request that the gate treats as restricted, the
    endpoint issues the same ledger reads, answers 400 or 500 exactly
    when the gate does, and otherwise answers 200 with [hasPaid: false]
    where the gate answers 402, or with [hasPaid: true] and the very
    figures that the gate attaches as [req.paymentInfo]. *)
Theorem status_endpoint_agrees_with_gate routeConfig req policy :
  gateState routeConfig req = Restricted policy ->
  let out := paymentMiddleware env routeConfig req in
  let reply := paymentStatus env req in
  filter (fun e => is_read e = true) reply.1 = filter (fun e => is_read e = true) out.2
  /\ match reply.2 with
     | StatusError status _ _ =>
         statuses out.2 = [status] /\ (status = 400 \/ status = 500)
     | StatusJson status body =>
         status = 200
         /\ if sb_hasPaid body
            then statuses out.2 = []
                 /\ paymentInfo out.1
                    = Some {| pi_walletAddress := sb_walletAddress body;
                              pi_balance := sb_balance body;
                              pi_availableRequests := sb_availableRequests body;
                              pi_pricePerRequest := sb_pricePerRequest body |}
            else statuses out.2 = [402]
     end.
Proof.
  intros Hg out reply. subst out reply.
  rewrite (paymentMiddleware_restricted env _ _ _ Hg). unfold paymentStatus.
  destruct (x402_cases (with_routeMetadata req policy))
    as [[Hf E]|(w & Hh & Hw & [(error & Hv & E)|[(v & Hv & Hp & E)|(v & Hv & Hp & E)]])];
    rewrite E; clear E; cbn [headers with_routeMetadata] in *.
  - rewrite Hf. simpl. auto.
  - rewrite Hh. destruct w as [|c r]; [done|]. cbn [truthy negb interpolate].
    rewrite Hv. cbn [fst snd]. rewrite verifyPayment_reads.
    destruct (isAddress env (String c r)); simpl; auto.
  - rewrite Hh. destruct w as [|c r]; [done|]. cbn [truthy negb interpolate].
    rewrite Hv. cbn [fst snd sb_hasPaid]. rewrite Hp, verifyPayment_reads.
    destruct (isAddress env (String c r)); simpl; auto.
  - rewrite Hh. destruct w as [|c r]; [done|]. cbn [truthy negb interpolate].
    rewrite Hv. cbn [fst snd sb_hasPaid]. rewrite Hp, verifyPayment_reads.
    destruct (isAddress env (String c r)); simpl; auto.
Qed.

End GateOutcomes.

(** * More on the route table *)

Section RouteTable.
Import Js Gate.

Implicit Types (routeConfig : list (string * RouteOptions)) (key route : string).

Lemma upper_ascii_idem c : upper_ascii (upper_ascii c) = upper_ascii c.
Proof. destruct c as [[] [] [] [] [] [] [] []]; reflexivity. Qed.

Lemma toUpperCase_idem s : toUpperCase (toUpperCase s) = toUpperCase s.
Proof.
  induction s as [|c r IH]; simpl; [done|]. by rewrite upper_ascii_idem, IH.
Qed.

Lemma last_entry_for_Some key routeConfig policy :
  Spec.last_entry_for key routeConfig = Some policy ->
  exists route config,
    (route, config) ∈ routeConfig /\ routeKeyOf route = key
    /\ policy = policyOf route config.
Proof.
  induction routeConfig as [|[route config] rest IH]; simpl; [done|].
  destruct (Spec.last_entry_for key rest) as [policy'|].
  - intros [= <-]. destruct (IH eq_refl) as (r & c & Hin & Hk & Hp).
    exists r, c. split; [by apply list_elem_of_further|done].
  - destruct (decide (routeKeyOf route = key)) as [Hk|]; [|done].
    intros [= <-]. exists route, config. split; [apply list_elem_of_here|done].
Qed.

Lemma policyOf_normalised route config :
  routeKeyOf route
  = rp_method (policyOf route config) +:+ " " +:+ interpolate (rp_path (policyOf route config))
  /\ toUpperCase (rp_method (policyOf route config)) = rp_method (policyOf route config)
  /\ rp_description (policyOf route config) <> EmptyString
  /\ (opt_accepts config = None -> rp_accepts (policyOf route config) = ["rootstock"]).
Proof.
  unfold routeKeyOf, policyOf. destruct (parseRoute route) as [m p]; simpl.
  split; [done|]. split; [apply toUpperCase_idem|]. split.
  - by destruct (opt_description config) as [[|c r]|].
  - by intros ->.
Qed.

(** X16. Every entry of the route table comes from the configuration
    and is stored in normalised form: its key is its own method, a
    space and its path; the method is in upper case; the description is
    never empty (a missing or empty one becomes "Protected endpoint");
    and missing networks become ["rootstock"]. *)
Theorem route_table_entries_are_normalised routeConfig key policy :
  buildRoutes routeConfig !! key = Some policy ->
  (exists route config,
     (route, config) ∈ routeConfig /\ routeKeyOf route = key
     /\ policy = policyOf route config
     /\ (opt_accepts config = None -> rp_accepts policy = ["rootstock"]))
  /\ key = rp_method policy +:+ " " +:+ interpolate (rp_path policy)
  /\ toUpperCase (rp_method policy) = rp_method policy
  /\ rp_description policy <> EmptyString.
Proof.
  rewrite buildRoutes_lookup. intros H.
  destruct (last_entry_for_Some _ _ _ H) as (route & config & Hin & Hk & ->).
  destruct (policyOf_normalised route config) as (E & Hu & Hd & Ha).
  split; [by exists route, config|]. by rewrite <- Hk.
Qed.

Lemma last_entry_for_unique key routeConfig route config :
  NoDup (routeKeyOf <$> routeConfig.*1) ->
  (route, config) ∈ routeConfig -> routeKeyOf route = key ->
  Spec.last_entry_for key routeConfig = Some (policyOf route config).
Proof.
  induction routeConfig as [|[r c] rest IH]; simpl.
  - intros _ Hin. by apply elem_of_nil in Hin.
  - intros [Hfresh Hnd]%NoDup_cons Hin Hk.
    apply elem_of_cons in Hin as [[= -> ->]|Hin].
    + assert (Hnone : Spec.last_entry_for key rest = None).
      { apply last_entry_for_None. intros r' c' Hin' Hk'. apply Hfresh.
        rewrite Hk, <- Hk'. apply list_elem_of_fmap. exists r'. split; [done|].
        apply list_elem_of_fmap. by exists (r', c'). }
      rewrite Hnone. by rewrite decide_True.
    + by rewrite (IH Hnd Hin Hk).
Qed.

(** X17. The order of the configuration matters only for duplicates:
    two configurations with the same entries in different orders, no
    two of which share a normalised key, build the same route table. *)
Theorem route_table_ignores_order_of_distinct_keys routeConfig routeConfig' :
  NoDup (routeKeyOf <$> routeConfig.*1) ->
  routeConfig ≡ₚ routeConfig' ->
  buildRoutes routeConfig = buildRoutes routeConfig'
  /\ forall req, gateState routeConfig req = gateState routeConfig' req.
Proof.
  intros Hnd Hperm.
  assert (Hnd' : NoDup (routeKeyOf <$> routeConfig'.*1)) by (by rewrite <- Hperm).
  assert (E : buildRoutes routeConfig = buildRoutes routeConfig').
  { apply map_eq. intros key. rewrite !buildRoutes_lookup.
    destruct (Spec.last_entry_for key routeConfig) as [policy|] eqn:L.
    - destruct (last_entry_for_Some _ _ _ L) as (route & config & Hin & Hk & ->).
      symmetry. apply last_entry_for_unique; [done| |done]. by rewrite <- Hperm.
    - symmetry. apply last_entry_for_None. intros route config Hin.
      rewrite <- Hperm in Hin. revert route config Hin.
      by apply last_entry_for_None. }
  split; [done|]. intros req. unfold gateState. by rewrite E.
Qed.

(** X18. How a configuration key is read.  A key without a space has no
    path, and is stored under "<METHOD> undefined"; pieces after the
    second are dropped; and two spaces in a row give the empty path, so
    such an entry is stored under "<METHOD> " and guards no real path. *)
Theorem route_key_parsing_edges m p rest :
  no_ws m = true -> no_ws p = true ->
  parseRoute m = (m, None)
  /\ routeKeyOf m = toUpperCase m +:+ " undefined"
  /\ parseRoute (m +:+ " " +:+ p +:+ " " +:+ rest) = (m, Some p)
  /\ routeKeyOf (m +:+ " " +:+ p +:+ " " +:+ rest) = routeKeyOf (m +:+ " " +:+ p)
  /\ routeKeyOf (m +:+ "  " +:+ rest) = toUpperCase m +:+ " ".
Proof.
  intros Hm Hp.
  assert (E1 : parseRoute m = (m, None)).
  { unfold parseRoute. rewrite (split_space_no_ws _ Hm). simpl.
    by rewrite (trim_no_ws _ Hm). }
  assert (E2 : forall q, no_ws q = true ->
                 parseRoute (m +:+ " " +:+ q +:+ " " +:+ rest) = (m, Some q)).
  { intros q Hq. unfold parseRoute.
    change (" " +:+ q +:+ " " +:+ rest) with (String " " (q +:+ String " " rest)).
    rewrite (split_space_app _ _ Hm), (split_space_app _ _ Hq).
    destruct (split_space rest); simpl;
      by rewrite (trim_no_ws _ Hm), (trim_no_ws _ Hq). }
  split; [done|]. split; [unfold routeKeyOf; by rewrite E1|].
  split; [by apply E2|]. split.
  - unfold routeKeyOf. by rewrite (E2 p Hp), (parseRoute_method_path _ _ Hm Hp).
  - unfold routeKeyOf.
    change (m +:+ "  " +:+ rest) with (m +:+ " " +:+ EmptyString +:+ " " +:+ rest).
    by rewrite (E2 EmptyString eq_refl).
Qed.

End RouteTable.

(** * More scenarios: the extra properties at concrete inputs *)

Section MoreScenarios.
Import Js Gate Server Node.
Import PayPerAPI Chain.

Lemma run_keeps_ledger_well_formed_witness :
  0 <= getPaymentBalance
         (run (ledgerAfterPaying 0)
            [mkTx (account alice) (CallPay 2500);
             mkTx deployer (CallDeductPayment (account alice) 1000);
             mkTx deployer (CallWithdraw (ThenPay deployer 10 (Returns true)))]).1 (account alice)
  <= MAX_UINT256.
Proof.
  apply (run_keeps_ledger_well_formed deployer 1000 (ledgerAfterPaying 0)
           [mkTx (account alice) (CallPay 2500);
            mkTx deployer (CallDeductPayment (account alice) 1000);
            mkTx deployer (CallWithdraw (ThenPay deployer 10 (Returns true)))]).
  - by vm_compute.
  - reflexivity.
  - repeat constructor; by vm_compute.
Defined.

Lemma run_keeps_price_and_owner_witness :
  PayPerAPI.pricePerRequest
    (run (ledgerAfterPaying 0)
       [mkTx (account alice) (CallPay 2500); mkTx 5%N (CallWithdraw (Returns true))]).1 = 1000.
Proof.
  apply (run_keeps_price_and_owner deployer 1000 (ledgerAfterPaying 0)
           [mkTx (account alice) (CallPay 2500); mkTx 5%N (CallWithdraw (Returns true))]).
  reflexivity.
Defined.

Lemma credit_is_kept_until_owner_deducts_witness :
  PayPerAPI.hasPaid
    (run (ledgerAfterPaying 1000)
       [mkTx 5%N (CallDeductPayment (account alice) 1000);
        mkTx deployer (CallWithdraw (ThenPay deployer 10 (Returns true)));
        mkTx 5%N (CallPay 10)]).1 (account alice) = true.
Proof.
  apply (credit_is_kept_until_owner_deducts (ledgerAfterPaying 1000)
           [mkTx 5%N (CallDeductPayment (account alice) 1000);
            mkTx deployer (CallWithdraw (ThenPay deployer 10 (Returns true)));
            mkTx 5%N (CallPay 10)] (account alice)).
  - repeat constructor; by vm_compute.
  - reflexivity.
Defined.

Lemma credit_never_exceeds_payments_witness :
  getPaymentBalance
    (run (ledgerAfterPaying 0)
       [mkTx (account alice) (CallPay 2500);
        mkTx deployer (CallDeductPayment (account alice) 1000)]).1 (account alice)
  <= 0 + 2500.
Proof.
  apply (credit_never_exceeds_payments (ledgerAfterPaying 0)
           [mkTx (account alice) (CallPay 2500);
            mkTx deployer (CallDeductPayment (account alice) 1000)] (account alice)).
  repeat constructor; by vm_compute.
Defined.

Lemma requests_count_whole_prices_witness :
  getAvailableRequests
    (commit (ledgerAfterPaying 2500)
       (pay (ledgerAfterPaying 2500) (account alice) (3 * 1000))) (account alice)
  = Success (2 + 3)
  /\ getAvailableRequests
       (commit (ledgerAfterPaying 2500)
          (deductPayment (ledgerAfterPaying 2500) deployer (account alice) 1000))
       (account alice)
     = Success (2 - 1).
Proof.
  destruct (requests_count_whole_prices (ledgerAfterPaying 2500) (account alice) 3
              ltac:(by vm_compute) ltac:(by vm_compute) ltac:(lia)
              ltac:(by vm_compute)) as [E1 E2].
  split; [exact E1 | exact (E2 eq_refl)].
Defined.

Lemma pay_then_deduct_round_trip_witness :
  getAvailableRequests
    (commit (commit (ledgerAfterPaying 2500)
               (pay (ledgerAfterPaying 2500) (account alice) 700))
       (deductPayment
          (commit (ledgerAfterPaying 2500)
             (pay (ledgerAfterPaying 2500) (account alice) 700))
          deployer (account alice) 700))
    (account alice)
  = getAvailableRequests (ledgerAfterPaying 2500) (account alice).
Proof.
  destruct (pay_then_deduct_round_trip (ledgerAfterPaying 2500) (account alice) 700
              ltac:(by vm_compute) ltac:(lia) ltac:(by vm_compute)) as [V _].
  apply (V (account alice)).
Defined.

Lemma withdraw_empties_until_next_payment_witness :
  withdraw (commit (ledgerAfterPaying 2500)
              (withdraw (ledgerAfterPaying 2500) deployer (noCallback true)))
    deployer (noCallback true)
  = Revert "No funds to withdraw".
Proof.
  apply (withdraw_empties_until_next_payment (ledgerAfterPaying 2500) deployer true).
  reflexivity.
Defined.

Lemma prepaid_requests_are_used_up_one_by_one_witness :
  getAvailableRequests
    (run (ledgerAfterPaying 0)
       (mkTx 7%N (CallPay (5 * 1000))
        :: replicate 5 (mkTx deployer (CallDeductPayment 7%N 1000)))).1 7%N
  = Success 0
  /\ hasPaid
       (run (ledgerAfterPaying 0)
          (mkTx 7%N (CallPay (5 * 1000))
           :: replicate 5 (mkTx deployer (CallDeductPayment 7%N 1000)))).1 7%N
     <> true.
Proof.
  destruct (prepaid_requests_are_used_up_one_by_one (ledgerAfterPaying 0) 7%N 5 5
              ltac:(by vm_compute) ltac:(reflexivity) ltac:(lia)
              ltac:(by vm_compute) ltac:(lia)) as [E H].
  split; [exact E|]. intros Hp. apply H in Hp. lia.
Defined.

Lemma paid_request_passes_with_payment_info_witness :
  (paymentMiddleware (envOf (serve (ledgerAfterPaying 2500))) serverRoutes
     (get "/api/weather" [("x-wallet-address", alice)])).2
  = VerifyCalled alice :: (allReads alice ++ [Next])%list.
Proof.
  destruct (paid_request_passes_with_payment_info
              (envOf (serve (ledgerAfterPaying 2500))) serverRoutes
              (get "/api/weather" [("x-wallet-address", alice)])
              _ alice 2500 2 1000
              ltac:(by vm_compute) ltac:(by vm_compute) ltac:(discriminate)
              ltac:(by vm_compute) ltac:(reflexivity) ltac:(reflexivity)
              ltac:(reflexivity) ltac:(reflexivity)) as [E _].
  by rewrite E.
Defined.

Lemma gate_decides_as_the_ledger_witness :
  statuses (paymentMiddleware (envOf (serve (ledgerAfterPaying 999))) serverRoutes
              (get "/api/data" [("x-wallet-address", alice)])).2 = [402]
  /\ statuses (paymentMiddleware (envOf (serve (ledgerAfterPaying 1000))) serverRoutes
                 (get "/api/data" [("x-wallet-address", alice)])).2 = [].
Proof.
  split.
  - eapply (gate_decides_as_the_ledger
              (envOf (serve (ledgerAfterPaying 999))) serverRoutes
              (get "/api/data" [("x-wallet-address", alice)])
              _ alice (ledgerAfterPaying 999) (account alice));
      try (by vm_compute); try discriminate.
    intros n H. simpl. by rewrite H.
  - eapply (gate_decides_as_the_ledger
              (envOf (serve (ledgerAfterPaying 1000))) serverRoutes
              (get "/api/data" [("x-wallet-address", alice)])
              _ alice (ledgerAfterPaying 1000) (account alice));
      try (by vm_compute); try discriminate.
    intros n H. simpl. by rewrite H.
Defined.

Lemma status_endpoint_agrees_with_gate_witness :
  replyStatus (paymentStatus (envOf (serve (ledgerAfterPaying 0)))
                 (get "/api/data" [("x-wallet-address", alice)])).2 = 200
  /\ statuses (paymentMiddleware (envOf (serve (ledgerAfterPaying 0))) serverRoutes
                 (get "/api/data" [("x-wallet-address", alice)])).2 = [402].
Proof.
  pose proof (status_endpoint_agrees_with_gate
                (envOf (serve (ledgerAfterPaying 0))) serverRoutes
                (get "/api/data" [("x-wallet-address", alice)]) _
                ltac:(by vm_compute)) as [_ H].
  split; [reflexivity|]. exact (proj2 H).
Defined.

Lemma route_table_entries_are_normalised_witness :
  toUpperCase "GET" = "GET".
Proof.
  eapply (route_table_entries_are_normalised
            [("get /x", mkRouteOptions None None)] "GET /x"
            {| rp_method := "GET"; rp_path := Some "/x";
               rp_accepts := ["rootstock"]; rp_description := "Protected endpoint" |}).
  by vm_compute.
Defined.

Lemma route_table_ignores_order_of_distinct_keys_witness :
  buildRoutes serverRoutes = buildRoutes (reverse serverRoutes).
Proof.
  apply (route_table_ignores_order_of_distinct_keys serverRoutes (reverse serverRoutes)).
  - vm_compute. repeat constructor; rewrite ?elem_of_cons, ?elem_of_nil; intros H;
      repeat destruct H as [H|H]; done.
  - symmetry. apply reverse_Permutation.
Defined.

Lemma route_key_parsing_edges_witness :
  routeKeyOf "options" = "OPTIONS undefined"
  /\ parseRoute "get /x and more" = ("get", Some "/x").
Proof.
  destruct (route_key_parsing_edges "options" EmptyString EmptyString
              ltac:(reflexivity) ltac:(reflexivity)) as (_ & E & _).
  destruct (route_key_parsing_edges "get" "/x" "and more"
              ltac:(reflexivity) ltac:(reflexivity)) as (_ & _ & E' & _).
  split; [exact E | exact E'].
Defined.

End MoreScenarios.
